(** * Chunked upload sessions of DocAI: a model of
      [doc-ai/backend_chunked_endpoints.py] and its properties.

    The five endpoint functions are embedded as computations in a state
    and exception monad over the two stores the module mutates: the
    in-memory dictionary [upload_sessions] and the files on disk (the
    chunk files under [temp_chunks] and the assembled files under
    [static/uploads]).

    Modelling conventions.
    - Python [int] is [Z]; [//] and [/] raise [ZeroDivisionError] on a
      zero divisor. A [float] is held as the expression that computes it;
      its rounding is not evaluated.
    - A [pathlib.Path] is the list of its parts, as [pathlib] has them on
      a POSIX system: a string joined with [/] is split at its slashes,
      empty parts and ["."] are dropped, [".."] is kept, and a string that
      starts with a slash is an absolute path, which replaces the path it
      is joined to. [str(path)] and [Path(str)] are inverse to each other
      on parts, so the session stores the path itself.
    - The disk is a flat finite map from paths to file contents; a path is
      the file it names, [".."] and links are not resolved. Reading or
      unlinking an absent file raises [FileNotFoundError]. A directory
      cannot be made where a file stands. A file is created in the
      directory the call has made; the chunk directory [temp_chunks] is
      made when the module is loaded and is there. Faults of the storage
      itself (permissions, a full disk, names longer than the file system
      takes) are not modelled.
    - The values drawn from the environment, [uuid.uuid4()] and
      [datetime.utcnow()], are arguments of the function that draws them,
      one argument per call in the source. A value of [uuid.uuid4()] is
      new and holds no slash: no directory is named after it.
    - A Python exception does not roll the stores back: a computation that
      raises returns the state reached at the [raise].
    - The [dict] held in [session["chunks"]] keeps insertion order; it is an
      association list. A Python [set] is a [gset].
    - [print] calls are omitted. *)

From Stdlib Require Import ZArith List Strings.Ascii Strings.Byte QArith Qround.
From stdpp Require Import base gmap sets list strings pretty sorting.

Open Scope Z_scope.

(** ** Data model *)

Abbreviation datetime := Z (only parsing).
Abbreviation Path := (list string).
Abbreviation bytes := (list byte).

(** [session["chunks"]]: chunk index to chunk file, in insertion order. *)
Abbreviation ChunkDict := (list (Z * Path)).

Record Session := {
  uploadId : string;
  fileName : string;
  totalSize : Z;
  chunkSize : Z;
  totalChunks : Z;
  fileType : option string;
  projectId : option string;
  folderId : option string;
  chunks : ChunkDict;
  createdAt : datetime;
  expiresAt : datetime;
  status : string
}.

Record ChunkedUploadInitRequest := {
  rq_fileName : string;
  rq_totalSize : Z;
  rq_chunkSize : Z;
  rq_totalChunks : Z;
  rq_fileType : option string
}.

Record ChunkedUploadInitResponse := {
  ir_uploadId : string;
  ir_chunkSize : Z;
  ir_totalChunks : Z;
  ir_expiresAt : datetime
}.

Record ChunkedUploadCompleteRequest := {
  cq_uploadId : string;
  cq_fileName : string;
  cq_chunks : list string
}.

(** The message of a successful [complete]:
    "File '<fileName>' uploaded successfully via chunked upload". *)
Record ChunkedUploadCompleteResponse := {
  cr_fileId : string;
  cr_fileName : string;
  cr_url : Path;
  cr_size : Z;
  cr_message : string
}.

(** The two messages of [upload_chunk]. *)
Inductive ChunkMessage :=
| AlreadyReceived (chunkIndex : Z)
| UploadedSuccessfully (chunkIndex : Z).

(** The dictionary returned by [upload_chunk]; a key the dictionary does not
    have is [None]. *)
Record UploadChunkResult := {
  uc_success : bool;
  uc_chunkIndex : option Z;
  uc_chunkSize : option Z;
  uc_message : ChunkMessage
}.

(** A [float], as the expression that computes it: [TrueDivMul a b c] is the
    value Python gives [a / b * c] on the integers [a], [b] and [c]. *)
Inductive pyfloat :=
| TrueDivMul (a b c : Z).

Record UploadStatus := {
  us_uploadId : string;
  us_fileName : string;
  us_totalChunks : Z;
  us_receivedChunks : Z;
  us_missingChunks : list Z;
  us_status : string;
  us_progress : pyfloat
}.

(** Exceptions. A [detail] built with [str(e)] carries [e]. *)
Inductive exn :=
| HTTPException (status_code : Z) (detail : Detail)
| ZeroDivisionError
| FileNotFoundError (p : Path)
| FileExistsError (p : Path)
| NotADirectoryError (p : Path)
| KeyError (key : string)
| ValueError
with Detail :=
| InvalidChunkCount (expected got : Z)
| UploadSessionNotFound
| InvalidChunkIndex (chunkIndex last : Z)
| MissingChunks (missing : list Z)
| FileSizeMismatch (expected got : Z)
| FailedToInitializeUpload (cause : exn)
| FailedToUploadChunk (cause : exn)
| FailedToCompleteUpload (cause : exn).

(** The two stores. *)
Record State := {
  upload_sessions : gmap string Session;
  disk : gmap Path bytes
}.

(** ** The state and exception monad *)

Inductive outcome (A : Type) :=
| Ok (a : A)
| Raise (e : exn).
Arguments Ok {A} a.
Arguments Raise {A} e.

Definition M (A : Type) : Type := State → outcome A * State.

Definition ret {A} (a : A) : M A := λ st, (Ok a, st).

Definition bind {A B} (m : M A) (k : A → M B) : M B :=
  λ st, match m st with
        | (Ok a, st') => k a st'
        | (Raise e, st') => (Raise e, st')
        end.

Definition raise {A} (e : exn) : M A := λ st, (Raise e, st).

(** [try: m except Exception as e: h e] *)
Definition try_except {A} (m : M A) (h : exn → M A) : M A :=
  λ st, match m st with
        | (Ok a, st') => (Ok a, st')
        | (Raise e, st') => h e st'
        end.

(** [try: m except: pass] *)
Definition ignore_errors (m : M unit) : M unit :=
  try_except m (λ _, ret tt).

Declare Scope py_scope.
Delimit Scope py_scope with py.
Notation "x <- m ;; k" := (bind m (λ x, k))
  (at level 100, m at next level, right associativity) : py_scope.
Notation "m ;;; k" := (bind m (λ _, k))
  (at level 100, right associativity) : py_scope.
Open Scope py_scope.

Fixpoint for_each {X} (l : list X) (body : X → M unit) : M unit :=
  match l with
  | [] => ret tt
  | x :: l' => body x ;;; for_each l' body
  end.

(** ** Primitives *)

(** [a // b] *)
Definition floordiv (a b : Z) : M Z :=
  if decide (b = 0) then raise ZeroDivisionError else ret (a / b).

(** [a / b * 100] *)
Definition percent (a b : Z) : M pyfloat :=
  if decide (b = 0) then raise ZeroDivisionError
  else ret (TrueDivMul a b 100).

(** [range(n)] *)
Definition range (n : Z) : list Z := seqZ 0 n.

(** [sorted(l)] on integers *)
Definition sorted (l : list Z) : list Z := merge_sort Z.le l.

Definition keys (d : ChunkDict) : list Z := fst <$> d.
Definition values (d : ChunkDict) : list Path := snd <$> d.

(** [k in d] *)
Definition dict_contains (k : Z) (d : ChunkDict) : bool :=
  bool_decide (k ∈ keys d).

Fixpoint dict_lookup (k : Z) (d : ChunkDict) : option Path :=
  match d with
  | [] => None
  | (k', v) :: d' => if decide (k' = k) then Some v else dict_lookup k d'
  end.

(** [d[k]] *)
Definition dict_get (k : Z) (d : ChunkDict) : M Path :=
  match dict_lookup k d with
  | Some v => ret v
  | None => raise (KeyError (pretty k))
  end.

(** [d[k] = v]: a present key keeps its position, a new key goes last. *)
Fixpoint dict_set (k : Z) (v : Path) (d : ChunkDict) : ChunkDict :=
  match d with
  | [] => [(k, v)]
  | (k', v') :: d' =>
      if decide (k' = k) then (k, v) :: d' else (k', v') :: dict_set k v d'
  end.

Definition get_sessions : M (gmap string Session) :=
  λ st, (Ok (upload_sessions st), st).

(** [upload_sessions[upload_id] = session] *)
Definition store_session (upload_id : string) (session : Session) : M unit :=
  λ st, (Ok tt, {| upload_sessions := <[upload_id := session]> (upload_sessions st);
                   disk := disk st |}).

(** [del upload_sessions[upload_id]] *)
Definition del_session (upload_id : string) : M unit :=
  λ st, match upload_sessions st !! upload_id with
        | Some _ => (Ok tt, {| upload_sessions := delete upload_id (upload_sessions st);
                               disk := disk st |})
        | None => (Raise (KeyError upload_id), st)
        end.

Definition set_disk (d : gmap Path bytes) (st : State) : State :=
  {| upload_sessions := upload_sessions st; disk := d |}.

(** [f.write(data)] on the file opened at [p]. *)
Definition write (p : Path) (data : bytes) : M unit :=
  λ st, (Ok tt, set_disk (alter (λ old, old ++ data) p (disk st)) st).

(** [open(p, "wb").write(data)] *)
Definition write_file (p : Path) (data : bytes) : M unit :=
  λ st, (Ok tt, set_disk (<[p := data]> (disk st)) st).

(** [open(p, "rb").read()] *)
Definition read_file (p : Path) : M bytes :=
  λ st, match disk st !! p with
        | Some data => (Ok data, st)
        | None => (Raise (FileNotFoundError p), st)
        end.

(** [p.unlink()] *)
Definition unlink (p : Path) : M unit :=
  λ st, match disk st !! p with
        | Some _ => (Ok tt, set_disk (delete p (disk st)) st)
        | None => (Raise (FileNotFoundError p), st)
        end.

(** [p.relative_to(base)] *)
Fixpoint relative_to (p base : Path) : M Path :=
  match base, p with
  | [], _ => ret p
  | b :: base', c :: p' =>
      if decide (b = c) then relative_to p' base' else raise ValueError
  | _ :: _, [] => raise ValueError
  end.

(** ** Paths *)

(** [s.split("/")] *)
Fixpoint split_slash (s : string) : list string :=
  match s with
  | EmptyString => [EmptyString]
  | String c s' =>
      if decide (c = "/"%char) then EmptyString :: split_slash s'
      else match split_slash s' with
           | w :: ws => String c w :: ws
           | [] => [String c EmptyString]
           end
  end.

(** The root of a path string: one leading slash, or three and more, are
    the root ["/"]; two are a root of their own. *)
Definition path_root (s : string) : Path :=
  match s with
  | String "/" (String "/" (String "/" _)) => ["/"]
  | String "/" (String "/" _) => ["//"]
  | String "/" _ => ["/"]
  | _ => []
  end.

(** [Path(s).parts] *)
Definition parse_path (s : string) : Path :=
  path_root s ++ filter (λ c, c ≠ EmptyString ∧ c ≠ ".") (split_slash s).

Definition is_absolute (p : Path) : bool :=
  match p with
  | root :: _ => bool_decide (root = "/" ∨ root = "//")
  | [] => false
  end.

(** [p / q] *)
Definition path_join (p q : Path) : Path :=
  if is_absolute q then q else p ++ q.

(** [c in s] for a character [c]. *)
Fixpoint has_char (c : ascii) (s : string) : bool :=
  match s with
  | EmptyString => false
  | String c' s' => bool_decide (c' = c) || has_char c s'
  end.

(** A path with a null character is refused before the file system sees
    it. *)
Definition embedded_null (p : Path) : bool := existsb (has_char "000"%char) p.

(** The directories above [p], from the top. *)
Definition ancestors (p : Path) : list Path :=
  (λ n, take n p) <$> seq 1 (length p - 1).

(** The exception of [p.mkdir(parents=True, exist_ok=True)], if any: a file
    stands above [p], or at [p]. *)
Definition mkdir_error (p : Path) (d : gmap Path bytes) : option exn :=
  if embedded_null p then Some ValueError
  else if decide (Exists (λ q, is_Some (d !! q)) (ancestors p)) then
    Some (NotADirectoryError p)
  else if decide (is_Some (d !! p)) then Some (FileExistsError p)
  else None.

(** [p.mkdir(parents=True, exist_ok=True)] *)
Definition mkdir (p : Path) : M unit :=
  λ st, match mkdir_error p (disk st) with
        | Some e => (Raise e, st)
        | None => (Ok tt, st)
        end.

(** The exception of [open(p, "wb")], if any, in a call that has made the
    directory [dir]. An entry of [dir] can be opened. Any other [p] lies in
    a directory below [dir] that is named after the new [file_id], and that
    directory is not there. *)
Definition open_error (dir p : Path) : option exn :=
  if embedded_null p then Some ValueError
  else if decide (p ≠ [] ∧ removelast p = dir) then None
  else Some (FileNotFoundError p).

(** [open(p, "wb")]: the file is created, or truncated. *)
Definition open_wb (dir p : Path) : M unit :=
  λ st, match open_error dir p with
        | Some e => (Raise e, st)
        | None => (Ok tt, set_disk (<[p := []]> (disk st)) st)
        end.

Definition chunk_storage_path : Path := ["temp_chunks"].

(** [chunk_storage_path / f"{uploadId}_chunk_{chunkIndex}"] *)
Definition chunk_file (upload_id : string) (chunkIndex : Z) : Path :=
  chunk_storage_path ++ [upload_id +:+ "_chunk_" +:+ pretty chunkIndex].

(** A string is true in a condition when it is not empty. *)
Definition truthy (o : option string) : option string :=
  match o with
  | Some s => if decide (s = EmptyString) then None else Some s
  | None => None
  end.

(** The directory of the assembled file: [Path("static/uploads") / project_id],
    [Path("static/uploads/folders") / folder_id] or
    [Path("static/uploads/temp")]. *)
Definition upload_dir_of (session : Session) : Path :=
  match truthy (projectId session), truthy (folderId session) with
  | Some project_id, _ => path_join ["static"; "uploads"] (parse_path project_id)
  | None, Some folder_id =>
      path_join ["static"; "uploads"; "folders"] (parse_path folder_id)
  | None, None => ["static"; "uploads"; "temp"]
  end.

(** [upload_dir / f"{file_id}_{session['fileName']}"] *)
Definition final_file_path_of (file_id : string) (session : Session) : Path :=
  path_join (upload_dir_of session)
            (parse_path (file_id +:+ "_" +:+ fileName session)).

(** ** The endpoints *)

(** [initialize_chunked_upload]. [upload_id] is the value of [uuid.uuid4()];
    [now_created] and [now_expires] are the two values of
    [datetime.utcnow()], read for ["createdAt"] and then for ["expiresAt"]. *)
Definition initialize_chunked_upload
    (upload_id : string) (now_created now_expires : datetime)
    (request : ChunkedUploadInitRequest)
    (project_id folder_id : option string) : M ChunkedUploadInitResponse :=
  try_except
    (expected_chunks <-
       floordiv (rq_totalSize request + rq_chunkSize request - 1)
                (rq_chunkSize request) ;;
     if decide (rq_totalChunks request ≠ expected_chunks) then
       raise (HTTPException 400
                (InvalidChunkCount expected_chunks (rq_totalChunks request)))
     else
       let session :=
         {| uploadId := upload_id;
            fileName := rq_fileName request;
            totalSize := rq_totalSize request;
            chunkSize := rq_chunkSize request;
            totalChunks := rq_totalChunks request;
            fileType := rq_fileType request;
            projectId := project_id;
            folderId := folder_id;
            chunks := [];
            createdAt := now_created;
            expiresAt := now_expires;
            status := "initialized" |} in
       store_session upload_id session ;;;
       ret {| ir_uploadId := upload_id;
              ir_chunkSize := rq_chunkSize request;
              ir_totalChunks := rq_totalChunks request;
              ir_expiresAt := expiresAt session |})
    (λ e, raise (HTTPException 500 (FailedToInitializeUpload e))).

(** The session with its ["chunks"] dictionary replaced. *)
Definition set_chunks (c : ChunkDict) (session : Session) : Session :=
  {| uploadId := uploadId session;
     fileName := fileName session;
     totalSize := totalSize session;
     chunkSize := chunkSize session;
     totalChunks := totalChunks session;
     fileType := fileType session;
     projectId := projectId session;
     folderId := folderId session;
     chunks := c;
     createdAt := createdAt session;
     expiresAt := expiresAt session;
     status := status session |}.

(** [session["chunks"][chunkIndex] = str(chunk_path)], on the session object
    that [upload_sessions] holds. *)
Definition record_chunk (session : Session) (chunkIndex : Z) (p : Path) : Session :=
  set_chunks (dict_set chunkIndex p (chunks session)) session.

(** [upload_chunk]. [chunk_data] is the value of [await chunk.read()]. *)
Definition upload_chunk
    (uploadId : string) (chunkIndex : Z) (chunk_data : bytes) : M UploadChunkResult :=
  try_except
    (sessions <- get_sessions ;;
     match sessions !! uploadId with
     | None => raise (HTTPException 404 UploadSessionNotFound)
     | Some session =>
         if decide (chunkIndex < 0 ∨ chunkIndex >= totalChunks session) then
           raise (HTTPException 400
                    (InvalidChunkIndex chunkIndex (totalChunks session - 1)))
         else if dict_contains chunkIndex (chunks session) then
           ret {| uc_success := true;
                  uc_chunkIndex := None;
                  uc_chunkSize := None;
                  uc_message := AlreadyReceived chunkIndex |}
         else
           let chunk_path := chunk_file uploadId chunkIndex in
           write_file chunk_path chunk_data ;;;
           store_session uploadId (record_chunk session chunkIndex chunk_path) ;;;
           ret {| uc_success := true;
                  uc_chunkIndex := Some chunkIndex;
                  uc_chunkSize := Some (Z.of_nat (length chunk_data));
                  uc_message := UploadedSuccessfully chunkIndex |}
     end)
    (λ e, raise (HTTPException 500 (FailedToUploadChunk e))).

(** The loop of [complete_chunked_upload] over [sorted(session["chunks"].keys())];
    [total_size] is the running byte count. *)
Fixpoint assemble (session : Session) (final_file_path : Path)
    (indices : list Z) (total_size : Z) : M Z :=
  match indices with
  | [] => ret total_size
  | chunk_index :: rest =>
      chunk_path <- dict_get chunk_index (chunks session) ;;
      chunk_data <- read_file chunk_path ;;
      write final_file_path chunk_data ;;;
      ignore_errors (unlink chunk_path) ;;;
      assemble session final_file_path rest
               (total_size + Z.of_nat (length chunk_data))
  end.

(** The [except] branch of [complete_chunked_upload]. *)
Definition cleanup_on_error (upload_id : string) : M unit :=
  sessions <- get_sessions ;;
  match sessions !! upload_id with
  | Some session =>
      for_each (values (chunks session)) (λ p, ignore_errors (unlink p)) ;;;
      del_session upload_id
  | None => ret tt
  end.

(** [complete_chunked_upload]. [file_id] is the value of [uuid.uuid4()]. *)
Definition complete_chunked_upload
    (file_id : string) (request : ChunkedUploadCompleteRequest)
    : M ChunkedUploadCompleteResponse :=
  let upload_id := cq_uploadId request in
  try_except
    (sessions <- get_sessions ;;
     match sessions !! upload_id with
     | None => raise (HTTPException 404 UploadSessionNotFound)
     | Some session =>
         let expected_chunks : gset Z := list_to_set (range (totalChunks session)) in
         let received_chunks : gset Z := list_to_set (keys (chunks session)) in
         if decide (received_chunks ≠ expected_chunks) then
           let missing_chunks := expected_chunks ∖ received_chunks in
           raise (HTTPException 400 (MissingChunks (elements missing_chunks)))
         else
           let upload_dir := upload_dir_of session in
           mkdir upload_dir ;;;
           let sanitized_filename := file_id +:+ "_" +:+ fileName session in
           let final_file_path := final_file_path_of file_id session in
           open_wb upload_dir final_file_path ;;;
           total_size <-
             assemble session final_file_path (sorted (keys (chunks session))) 0 ;;
           if decide (total_size ≠ totalSize session) then
             unlink final_file_path ;;;
             raise (HTTPException 400
                      (FileSizeMismatch (totalSize session) total_size))
           else
             relative_path <- relative_to final_file_path ["static"] ;;
             let file_url := "static" :: relative_path in
             del_session upload_id ;;;
             ret {| cr_fileId := file_id;
                    cr_fileName := sanitized_filename;
                    cr_url := file_url;
                    cr_size := total_size;
                    cr_message :=
                      "File '" +:+ fileName session
                        +:+ "' uploaded successfully via chunked upload" |}
     end)
    (λ e,
       cleanup_on_error upload_id ;;;
       raise (HTTPException 500 (FailedToCompleteUpload e))).

(** [get_upload_status] *)
Definition get_upload_status (upload_id : string) : M UploadStatus :=
  sessions <- get_sessions ;;
  match sessions !! upload_id with
  | None => raise (HTTPException 404 UploadSessionNotFound)
  | Some session =>
      let received := Z.of_nat (length (chunks session)) in
      let missing :=
        filter (λ i, i ∉ keys (chunks session)) (range (totalChunks session)) in
      progress <- percent received (totalChunks session) ;;
      ret {| us_uploadId := upload_id;
             us_fileName := fileName session;
             us_totalChunks := totalChunks session;
             us_receivedChunks := received;
             us_missingChunks := missing;
             us_status := status session;
             us_progress := progress |}
  end.

(** [cancel_chunked_upload]; the result is the id named in the message
    "Upload <id> cancelled successfully". *)
Definition cancel_chunked_upload (upload_id : string) : M string :=
  sessions <- get_sessions ;;
  match sessions !! upload_id with
  | None => raise (HTTPException 404 UploadSessionNotFound)
  | Some session =>
      for_each (values (chunks session)) (λ p, ignore_errors (unlink p)) ;;;
      del_session upload_id ;;;
      ret upload_id
  end.

(** The project and folder routes call the three functions above; only the
    [init] routes pass their path parameter on. *)
Definition init_project_chunked_upload upload_id now_created now_expires
    (project_id : string) request :=
  initialize_chunked_upload upload_id now_created now_expires request
                            (Some project_id) None.

Definition init_folder_chunked_upload upload_id now_created now_expires
    (folder_id : string) request :=
  initialize_chunked_upload upload_id now_created now_expires request
                            None (Some folder_id).

Definition upload_project_chunk (project_id : string) uploadId chunkIndex chunk_data :=
  upload_chunk uploadId chunkIndex chunk_data.

Definition complete_project_chunked_upload (project_id : string) file_id request :=
  complete_chunked_upload file_id request.

Definition upload_folder_chunk (folder_id : string) uploadId chunkIndex chunk_data :=
  upload_chunk uploadId chunkIndex chunk_data.

Definition complete_folder_chunked_upload (folder_id : string) file_id request :=
  complete_chunked_upload file_id request.

(** ** Small end-to-end runs *)

Definition empty_state : State := {| upload_sessions := ∅; disk := ∅ |}.

Definition b (s : string) : bytes := Stdlib.Strings.String.list_byte_of_string s.

Definition run {A} (m : M A) (st : State) : State := snd (m st).

Definition demo_request : ChunkedUploadInitRequest :=
  {| rq_fileName := "a.pdf"; rq_totalSize := 6; rq_chunkSize := 3;
     rq_totalChunks := 2; rq_fileType := None |}.

Definition demo_complete : ChunkedUploadCompleteRequest :=
  {| cq_uploadId := "u1"; cq_fileName := "a.pdf"; cq_chunks := [] |}.

Definition demo_state : State :=
  run (upload_chunk "u1" 1 (b "bar"))
    (run (upload_chunk "u1" 0 (b "foo"))
       (run (initialize_chunked_upload "u1" 10 11 demo_request None None)
          empty_state)).

(** Three chunks of one byte declared, chunks 0 and 2 received. *)
Definition gate_request : ChunkedUploadInitRequest :=
  {| rq_fileName := "a.pdf"; rq_totalSize := 3; rq_chunkSize := 1;
     rq_totalChunks := 3; rq_fileType := None |}.

Definition gate_state : State :=
  run (upload_chunk "u1" 2 (b "c"))
    (run (upload_chunk "u1" 0 (b "a"))
       (run (initialize_chunked_upload "u1" 10 11 gate_request None None)
          empty_state)).

(** Six bytes declared, five received: "foo" and "ba". *)
Definition short_state : State :=
  run (upload_chunk "u1" 1 (b "ba"))
    (run (upload_chunk "u1" 0 (b "foo"))
       (run (initialize_chunked_upload "u1" 10 11 demo_request None None)
          empty_state)).

(** The payloads of the two-chunk examples, by index. *)
Definition demo_data (i : Z) : bytes := if decide (i = 0) then b "foo" else b "bar".

Definition short_data (i : Z) : bytes := if decide (i = 0) then b "foo" else b "ba".






(** A request with a negative size: [(-250 + 100 - 1) // 100] is [-2]. *)
Definition negative_request : ChunkedUploadInitRequest :=
  {| rq_fileName := "a.pdf"; rq_totalSize := -250; rq_chunkSize := 100;
     rq_totalChunks := -2; rq_fileType := None |}.



(** ** The chunk count the specification asks for *)

(** [ceil(totalSize / chunkSize)], on the rationals. *)
Definition ceil_div (a b : Z) : Z := Qceiling (inject_Z a / inject_Z b).

(** ** Clients: sequences of calls *)

(** A client that sends the chunks [order], chunk [i] carrying [data i], and
    disregards the responses. *)
Definition ingest_all (uploadId : string) (data : Z → bytes)
    (order : list Z) (st : State) : State :=
  foldl (λ st i, run (upload_chunk uploadId i (data i)) st) st order.

(** One call of an endpoint, with the values it draws from the environment. *)
Inductive Op :=
| OpInit (upload_id : string) (now_created now_expires : datetime)
         (request : ChunkedUploadInitRequest) (project_id folder_id : option string)
| OpUpload (uploadId : string) (chunkIndex : Z) (chunk_data : bytes)
| OpComplete (file_id : string) (request : ChunkedUploadCompleteRequest)
| OpStatus (upload_id : string)
| OpCancel (upload_id : string).

Definition step (st : State) (op : Op) : State :=
  match op with
  | OpInit upload_id t1 t2 request project_id folder_id =>
      run (initialize_chunked_upload upload_id t1 t2 request project_id folder_id) st
  | OpUpload uploadId chunkIndex chunk_data =>
      run (upload_chunk uploadId chunkIndex chunk_data) st
  | OpComplete file_id request => run (complete_chunked_upload file_id request) st
  | OpStatus upload_id => run (get_upload_status upload_id) st
  | OpCancel upload_id => run (cancel_chunked_upload upload_id) st
  end.

Definition run_ops (ops : list Op) (st : State) : State := foldl step st ops.

Definition is_upload (op : Op) : bool :=
  match op with OpUpload _ _ _ => true | _ => false end.

(** ** Predicates on sessions *)

(** The recorded indices lie in [[0, totalChunks)] and no index is recorded
    twice. *)
Definition chunks_in_range (session : Session) : Prop :=
  (∀ i, i ∈ keys (chunks session) → 0 ≤ i < totalChunks session)
  ∧ NoDup (keys (chunks session)).

Definition registry_in_range (st : State) : Prop :=
  ∀ upload_id session,
    upload_sessions st !! upload_id = Some session → chunks_in_range session.

(** Every index is recorded once, at the file [upload_chunk] gives it, and
    that file holds [data i]. *)
Definition chunks_stored (upload_id : string) (session : Session)
    (data : Z → bytes) (d : gmap Path bytes) : Prop :=
  NoDup (keys (chunks session))
  ∧ ∀ i p, (i, p) ∈ chunks session →
      p = chunk_file upload_id i ∧ d !! p = Some (data i).


(** The disk after the files [paths] have been removed. *)
Definition remove_all (paths : list Path) (d : gmap Path bytes) : gmap Path bytes :=
  foldl (λ d p, delete p d) d paths.

(** All of [[0, totalChunks)] has been received. *)
Definition fully_received (session : Session) : Prop :=
  ∀ i, i ∈ keys (chunks session) ↔ 0 ≤ i < totalChunks session.

(** The bytes of the chunks [indices], one after the other. *)
Definition concat_chunks (data : Z → bytes) (indices : list Z) : bytes :=
  concat (data <$> indices).

(** The sum of the byte lengths of the chunks [indices]. *)
Definition total_length (data : Z → bytes) (indices : list Z) : Z :=
  foldr (λ i n, Z.of_nat (length (data i)) + n) 0 indices.

(** A string that names one entry of a directory: it is not empty, is
    neither ["."] nor [".."], holds no slash and no null character, and has
    at most 255 characters, the longest name a file system takes. *)
Definition plain_name (s : string) : Prop :=
  s ≠ EmptyString ∧ s ≠ "." ∧ s ≠ ".."
  ∧ has_char "/"%char s = false ∧ has_char "000"%char s = false
  ∧ (String.length s ≤ 255)%nat.

(** The project or folder id that names the directory of the assembled
    file, if there is one, is a plain name. *)
Definition plain_scope (session : Session) : Prop :=
  match truthy (projectId session), truthy (folderId session) with
  | Some project_id, _ => plain_name project_id
  | None, Some folder_id => plain_name folder_id
  | None, None => True
  end.

(** The destination of the assembled file can be made on the disk [d]: the
    name of the file and the id that names its directory are plain names,
    and no file stands at the directory or above it. *)
Definition destination_accepted (file_id : string) (session : Session)
    (d : gmap Path bytes) : Prop :=
  plain_name (file_id +:+ "_" +:+ fileName session)
  ∧ plain_scope session
  ∧ ∀ q, q ∈ ancestors (upload_dir_of session) ++ [upload_dir_of session] →
         d !! q = None.

(** No file stands where the directory of the uploads without a project or
    a folder has to be, nor above it. *)
Definition temp_dir_free (d : gmap Path bytes) : Prop :=
  d !! ["static"] = None
  ∧ d !! ["static"; "uploads"] = None
  ∧ d !! ["static"; "uploads"; "temp"] = None.

(** [p] lies under [static]: [p.relative_to(Path("static"))] has a value. *)
Definition under_static (p : Path) : bool :=
  match p with
  | c :: _ => bool_decide (c = "static")
  | [] => false
  end.

(** The exception of the two calls that make the destination, if any. *)
Definition destination_error (file_id : string) (session : Session)
    (d : gmap Path bytes) : option exn :=
  match mkdir_error (upload_dir_of session) d with
  | Some e => Some e
  | None => open_error (upload_dir_of session) (final_file_path_of file_id session)
  end.

(** The response of a successful [complete_chunked_upload]. *)
Definition complete_response (file_id : string) (session : Session) (size : Z)
    : ChunkedUploadCompleteResponse :=
  {| cr_fileId := file_id;
     cr_fileName := file_id +:+ "_" +:+ fileName session;
     cr_url := final_file_path_of file_id session;
     cr_size := size;
     cr_message :=
       "File '" +:+ fileName session
         +:+ "' uploaded successfully via chunked upload" |}.

(** * The coordinate script [public/updown.py]

    The script loads a JSON document, replaces the [y] of every text item
    that has both a [y] and a [height] by [PAGE_HEIGHT - y - height], and
    dumps the document. The model is the transformation between [json.load]
    and [json.dump]: a function from the loaded value to the value dumped, or
    to the exception that ends the script before anything is written.

    A loaded document is a tree: no two places share an object, so an update
    in place is an update of the tree. A [dict] is an association list in
    insertion order. Floating-point subtraction and the conversion of an
    [int] to a [float] are parameters of the model. *)

(** The exceptions that end the script, and its outcomes. *)
Inductive script_error := AttributeError | TypeError | OverflowError.

Inductive script_result (A : Type) :=
| Done (a : A)
| Failed (e : script_error).
Arguments Done {A} a.
Arguments Failed {A} e.

Section updown_model.

Context {float : Type}.
(** [float(n)]; [None] is [OverflowError]. *)
Context (float_of_int : Z → option float).
Context (float_sub : float → float → float).

#[warnings="-register-all"]
Inductive json :=
| JNull
| JBool (b : bool)
| JInt (z : Z)
| JFloat (f : float)
| JStr (s : string)
| JList (l : list json)
| JDict (d : list (string * json)).

Fixpoint obj_lookup (k : string) (d : list (string * json)) : option json :=
  match d with
  | [] => None
  | (k', v) :: d' => if decide (k' = k) then Some v else obj_lookup k d'
  end.

(** [d.get(k)] *)
Definition obj_get (k : string) (d : list (string * json)) : json :=
  match obj_lookup k d with
  | Some v => v
  | None => JNull
  end.

(** [d[k] = v] *)
Fixpoint obj_set (k : string) (v : json) (d : list (string * json))
    : list (string * json) :=
  match d with
  | [] => [(k, v)]
  | (k', v') :: d' =>
      if decide (k' = k) then (k, v) :: d' else (k', v') :: obj_set k v d'
  end.

Definition PAGE_HEIGHT : Z := 842.

(** The value of a [bool] or an [int] in arithmetic. *)
Definition as_int (v : json) : option Z :=
  match v with
  | JInt z => Some z
  | JBool true => Some 1
  | JBool false => Some 0
  | _ => None
  end.

Definition to_float (z : Z) : script_result float :=
  match float_of_int z with
  | Some f => Done f
  | None => Failed OverflowError
  end.

(** [a - b] *)
Definition py_sub (a b : json) : script_result json :=
  match as_int a, as_int b with
  | Some x, Some y => Done (JInt (x - y))
  | Some x, None =>
      match b with
      | JFloat g =>
          match to_float x with
          | Done f => Done (JFloat (float_sub f g))
          | Failed e => Failed e
          end
      | _ => Failed TypeError
      end
  | None, Some y =>
      match a with
      | JFloat f =>
          match to_float y with
          | Done g => Done (JFloat (float_sub f g))
          | Failed e => Failed e
          end
      | _ => Failed TypeError
      end
  | None, None =>
      match a, b with
      | JFloat f, JFloat g => Done (JFloat (float_sub f g))
      | _, _ => Failed TypeError
      end
  end.

(** The body of the inner loop, on one [item]. *)
Definition flip_item (item : json) : script_result json :=
  match item with
  | JDict d =>
      let y := obj_get "y" d in
      let h := obj_get "height" d in
      match y, h with
      | JNull, _ => Done item
      | _, JNull => Done item
      | _, _ =>
          match py_sub (JInt PAGE_HEIGHT) y with
          | Done r =>
              match py_sub r h with
              | Done v => Done (JDict (obj_set "y" v d))
              | Failed e => Failed e
              end
          | Failed e => Failed e
          end
      end
  | _ => Failed AttributeError
  end.

(** The body applied to the elements of a list, in order, up to the first
    exception. *)
Fixpoint each (body : json → script_result json) (l : list json)
    : script_result (list json) :=
  match l with
  | [] => Done []
  | x :: l' =>
      match body x with
      | Done x' =>
          match each body l' with
          | Done l'' => Done (x' :: l'')
          | Failed e => Failed e
          end
      | Failed e => Failed e
      end
  end.

(** The one-character strings a [str] yields. *)
Fixpoint chars (s : string) : list json :=
  match s with
  | EmptyString => []
  | String c s' => JStr (String c EmptyString) :: chars s'
  end.

(** [for x in v: body(x)], where the body may update [x] in place. A list
    yields its elements, a [str] its characters and a [dict] its keys, which
    are strings and cannot be updated; any other value is not iterable. *)
Definition for_in (v : json) (body : json → script_result json)
    : script_result json :=
  match v with
  | JList l =>
      match each body l with
      | Done l' => Done (JList l')
      | Failed e => Failed e
      end
  | JStr s =>
      match each body (chars s) with
      | Done _ => Done v
      | Failed e => Failed e
      end
  | JDict d =>
      match each body (JStr <$> (fst <$> d)) with
      | Done _ => Done v
      | Failed e => Failed e
      end
  | _ => Failed TypeError
  end.

(** The body of the outer loop, on one [page]; [page.get("textItems", [])]
    is a new empty list when the key is absent. *)
Definition convert_page (page : json) : script_result json :=
  match page with
  | JDict d =>
      match obj_lookup "textItems" d with
      | Some items =>
          match for_in items flip_item with
          | Done items' => Done (JDict (obj_set "textItems" items' d))
          | Failed e => Failed e
          end
      | None => Done page
      end
  | _ => Failed AttributeError
  end.

(** The script, from the loaded [data] to the dumped one. *)
Definition updown (data : json) : script_result json :=
  match data with
  | JDict d =>
      match obj_lookup "pages" d with
      | Some pages =>
          match for_in pages convert_page with
          | Done pages' => Done (JDict (obj_set "pages" pages' d))
          | Failed e => Failed e
          end
      | None => Done data
      end
  | _ => Failed AttributeError
  end.

(** The text items the two loops reach. *)
Definition elements_of (v : json) : list json :=
  match v with
  | JList l => l
  | JStr s => chars s
  | JDict d => JStr <$> (fst <$> d)
  | _ => []
  end.

Definition page_items (page : json) : list json :=
  match page with
  | JDict d =>
      match obj_lookup "textItems" d with
      | Some items => elements_of items
      | None => []
      end
  | _ => []
  end.

(** The pages the outer loop reaches. *)
Definition pages_of (data : json) : list json :=
  match data with
  | JDict d =>
      match obj_lookup "pages" d with
      | Some pages => elements_of pages
      | None => []
      end
  | _ => []
  end.

Definition all_items (data : json) : list json :=
  match data with
  | JDict d =>
      match obj_lookup "pages" d with
      | Some pages => concat (page_items <$> elements_of pages)
      | None => []
      end
  | _ => []
  end.

(** An item whose [y] and [height], when both are there, are integers. *)
Definition int_item (item : json) : Prop :=
  match item with
  | JDict d =>
      match obj_get "y" d, obj_get "height" d with
      | JNull, _ => True
      | _, JNull => True
      | JInt _, JInt _ => True
      | _, _ => False
      end
  | _ => True
  end.

(** Two items with the same keys in the same order and, but for [y], the
    same values. *)
Definition same_but_y (item item' : json) : Prop :=
  ∃ d d',
    item = JDict d ∧ item' = JDict d'
    ∧ fst <$> d' = fst <$> d
    ∧ ∀ k, k ≠ "y" → obj_lookup k d' = obj_lookup k d.

(** Two pages with the same keys in the same order, the same values but
    under [textItems], and items that pair up as above. *)
Definition same_but_items (page page' : json) : Prop :=
  ∃ d d',
    page = JDict d ∧ page' = JDict d'
    ∧ fst <$> d' = fst <$> d
    ∧ (∀ k, k ≠ "textItems" → obj_lookup k d' = obj_lookup k d)
    ∧ Forall2 same_but_y (page_items page) (page_items page').

(** An item without a [y], or without a [height]. *)
Definition no_coordinates (item : json) : Prop :=
  ∃ d, item = JDict d ∧ (obj_get "y" d = JNull ∨ obj_get "height" d = JNull).

End updown_model.

Arguments json : clear implicits.

(** Documents without floats. *)
Definition no_float_of_int (z : Z) : option Empty_set := None.
Definition no_float_sub (f g : Empty_set) : Empty_set := f.

(** A page with a text item at [y = 100] of height 12, an item without
    [height], and a key of its own. *)
Definition sample_document : json Empty_set :=
  JDict [("title", JStr "statement");
         ("pages",
          JList [JDict [("number", JInt 1);
                        ("textItems",
                         JList [JDict [("text", JStr "Total"); ("y", JInt 100);
                                       ("height", JInt 12)];
                                JDict [("text", JStr "Page 1"); ("y", JInt 20)]])]])].

(** The sample with its first item flipped: [842 - 100 - 12 = 730]. *)
Definition sample_flipped : json Empty_set :=
  JDict [("title", JStr "statement");
         ("pages",
          JList [JDict [("number", JInt 1);
                        ("textItems",
                         JList [JDict [("text", JStr "Total"); ("y", JInt 730);
                                       ("height", JInt 12)];
                                JDict [("text", JStr "Page 1"); ("y", JInt 20)]])]])].

(** A document whose only item has no [height]. *)
Definition sample_plain : json Empty_set :=
  JDict [("pages",
          JList [JDict [("textItems",
                         JList [JDict [("text", JStr "Page 1"); ("y", JInt 20)]])]])].

(** A document whose second item holds a string under [y]. *)
Definition sample_broken : json Empty_set :=
  JDict [("pages",
          JList [JDict [("textItems",
                         JList [JDict [("y", JInt 100); ("height", JInt 12)];
                                JDict [("y", JStr "100"); ("height", JInt 12)]])]])].

(** * Properties *)

(** ** The chunk count of [initialize_chunked_upload] *)

Lemma ceil_div_opp_div a b : 0 < b → ceil_div a b = - (- a / b).
Proof.
  intros Hb. unfold ceil_div, Qceiling, Qfloor.
  destruct b as [|p|p]; try lia.
  cbn. rewrite Z.mul_1_r. reflexivity.
Qed.

Lemma floor_formula_is_ceil a b : 0 < b → (a + b - 1) / b = ceil_div a b.
Proof.
  intros Hb. rewrite ceil_div_opp_div by done.
  pose proof (Z.div_mod (- a) b ltac:(lia)) as H1.
  pose proof (Z.mod_pos_bound (- a) b Hb) as H2.
  symmetry. apply (Z.div_unique_pos _ _ _ (b - 1 - (- a) `mod` b)); lia.
Qed.

Lemma ceil_div_bounds a b :
  0 < b → b * (ceil_div a b - 1) < a ∧ a ≤ b * ceil_div a b.
Proof.
  intros Hb. rewrite ceil_div_opp_div by done.
  pose proof (Z.div_mod (- a) b ltac:(lia)) as H1.
  pose proof (Z.mod_pos_bound (- a) b Hb) as H2.
  lia.
Qed.

(** ** [initialize_chunked_upload] *)

(** The two outcomes of [initialize_chunked_upload] when the divisor is not
    zero. *)
Lemma initialize_rejects upload_id t1 t2 request project_id folder_id st :
  rq_chunkSize request ≠ 0 →
  rq_totalChunks request
    ≠ (rq_totalSize request + rq_chunkSize request - 1) / rq_chunkSize request →
  initialize_chunked_upload upload_id t1 t2 request project_id folder_id st
  = (Raise (HTTPException 500 (FailedToInitializeUpload (HTTPException 400
       (InvalidChunkCount
          ((rq_totalSize request + rq_chunkSize request - 1) / rq_chunkSize request)
          (rq_totalChunks request))))), st).
Proof.
  intros Hc Hne.
  unfold initialize_chunked_upload, try_except, bind, floordiv, raise, ret.
  rewrite decide_False by done. rewrite decide_True by done. reflexivity.
Qed.

Lemma initialize_accepts upload_id t1 t2 request project_id folder_id st :
  rq_chunkSize request ≠ 0 →
  rq_totalChunks request
    = (rq_totalSize request + rq_chunkSize request - 1) / rq_chunkSize request →
  initialize_chunked_upload upload_id t1 t2 request project_id folder_id st
  = (Ok {| ir_uploadId := upload_id;
           ir_chunkSize := rq_chunkSize request;
           ir_totalChunks := rq_totalChunks request;
           ir_expiresAt := t2 |},
     {| upload_sessions :=
          <[upload_id :=
              {| uploadId := upload_id;
                 fileName := rq_fileName request;
                 totalSize := rq_totalSize request;
                 chunkSize := rq_chunkSize request;
                 totalChunks := rq_totalChunks request;
                 fileType := rq_fileType request;
                 projectId := project_id;
                 folderId := folder_id;
                 chunks := [];
                 createdAt := t1;
                 expiresAt := t2;
                 status := "initialized" |}]> (upload_sessions st);
        disk := disk st |}).
Proof.
  intros Hc He.
  unfold initialize_chunked_upload, try_except, bind, floordiv, raise, ret,
    store_session.
  rewrite decide_False by done. rewrite decide_False by (intros ?; done).
  reflexivity.
Qed.

Lemma initialize_zero_chunk_size upload_id t1 t2 request project_id folder_id st :
  rq_chunkSize request = 0 →
  initialize_chunked_upload upload_id t1 t2 request project_id folder_id st
  = (Raise (HTTPException 500 (FailedToInitializeUpload ZeroDivisionError)), st).
Proof.
  intros Hc.
  unfold initialize_chunked_upload, try_except, bind, floordiv, raise.
  rewrite decide_True by done. reflexivity.
Qed.

(** C3. For [totalSize > 0] and [chunkSize > 0], [initialize_chunked_upload]
    fails with the invalid-chunk-count error exactly when [totalChunks]
    differs from [ceil(totalSize / chunkSize)]; the error names the expected
    count and the count given, and the stores are then left as they were. When
    the counts agree the call returns a response. The error reaches the caller
    as the cause of the handler's "Failed to initialize upload". *)
Theorem C3_initiate_chunk_count
    upload_id t1 t2 request project_id folder_id st :
  0 < rq_totalSize request →
  0 < rq_chunkSize request →
  let expected := ceil_div (rq_totalSize request) (rq_chunkSize request) in
  let r := initialize_chunked_upload upload_id t1 t2 request project_id folder_id st in
  ((∃ e g, r.1 = Raise (HTTPException 500 (FailedToInitializeUpload
                          (HTTPException 400 (InvalidChunkCount e g)))))
     ↔ rq_totalChunks request ≠ expected)
  ∧ (rq_totalChunks request ≠ expected →
       r = (Raise (HTTPException 500 (FailedToInitializeUpload (HTTPException 400
                (InvalidChunkCount expected (rq_totalChunks request))))), st))
  ∧ (rq_totalChunks request = expected → ∃ resp st', r = (Ok resp, st')).
Proof.
  intros Hs Hc expected r.
  assert (Hexp : (rq_totalSize request + rq_chunkSize request - 1)
                   / rq_chunkSize request = expected)
    by (apply floor_formula_is_ceil; done).
  assert (Hfail : rq_totalChunks request ≠ expected →
            r = (Raise (HTTPException 500 (FailedToInitializeUpload (HTTPException 400
                  (InvalidChunkCount expected (rq_totalChunks request))))), st)).
  { intros Hne. subst r. rewrite initialize_rejects; [by rewrite Hexp | lia | by rewrite Hexp]. }
  assert (Hok : rq_totalChunks request = expected → ∃ resp st', r = (Ok resp, st')).
  { intros He. subst r. rewrite initialize_accepts; [eauto | lia | by rewrite Hexp]. }
  split_and!; [|done|done].
  split.
  - intros (e & g & Hr) He. destruct (Hok He) as (resp & st' & Hr').
    rewrite Hr' in Hr. discriminate.
  - intros Hne. rewrite (Hfail Hne). eauto.
Qed.

(** The count validation example: 250 bytes in chunks of 100 declared as 2
    chunks is rejected, the expected count being 3. *)
Lemma C3_initiate_chunk_count_witness :
  let request := {| rq_fileName := "a.pdf"; rq_totalSize := 250;
                    rq_chunkSize := 100; rq_totalChunks := 2;
                    rq_fileType := None |} in
  initialize_chunked_upload "u1" 10 11 request None None empty_state
  = (Raise (HTTPException 500 (FailedToInitializeUpload (HTTPException 400
       (InvalidChunkCount 3 2)))), empty_state).
Proof.
  intros request.
  refine (proj1 (proj2 (C3_initiate_chunk_count "u1" 10 11 request None None
                          empty_state _ _)) _).
  - simpl; lia.
  - simpl; lia.
  - vm_compute. discriminate.
Defined.

(** C10, as stated, fails when the clock advances between the two readings:
    the session created at reading 10 records and returns the expiry 11. *)
Lemma C10_expiry_counterexample :
  ∃ resp st' session,
    initialize_chunked_upload "u1" 10 11 demo_request None None empty_state
      = (Ok resp, st')
    ∧ upload_sessions st' !! "u1" = Some session
    ∧ createdAt session = 10
    ∧ expiresAt session = 11
    ∧ ir_expiresAt resp = 11
    ∧ ir_expiresAt resp ≠ createdAt session
    ∧ createdAt session < expiresAt session.
Proof.
  eexists _, _, _. split; [vm_compute; reflexivity|].
  split; [vm_compute; reflexivity|]. simpl. lia.
Qed.

(** C10, amended. A session created by [initialize_chunked_upload] records as
    [createdAt] the first clock reading and as [expiresAt] the second one,
    taken right after it, with no validity window added; the response returns
    the recorded [expiresAt]. The expiry equals the creation time when the
    clock did not advance between the two readings, and is not earlier than it
    when the clock did not go back. *)
Theorem C10_expiry_is_second_clock_reading
    upload_id now_created now_expires request project_id folder_id st resp st' :
  initialize_chunked_upload upload_id now_created now_expires request
    project_id folder_id st = (Ok resp, st') →
  ∃ session,
    upload_sessions st' !! upload_id = Some session
    ∧ createdAt session = now_created
    ∧ expiresAt session = now_expires
    ∧ ir_expiresAt resp = expiresAt session
    ∧ (now_expires = now_created → ir_expiresAt resp = createdAt session)
    ∧ (now_created ≤ now_expires → createdAt session ≤ ir_expiresAt resp).
Proof.
  intros Hrun.
  destruct (decide (rq_chunkSize request = 0)) as [Hz|Hz].
  { rewrite initialize_zero_chunk_size in Hrun by done. discriminate. }
  destruct (decide (rq_totalChunks request
      = (rq_totalSize request + rq_chunkSize request - 1) / rq_chunkSize request))
    as [He|He].
  - rewrite initialize_accepts in Hrun by done.
    injection Hrun as <- <-. eexists. split; [apply lookup_insert_eq|].
    simpl. split_and!; try done; lia.
  - rewrite initialize_rejects in Hrun by done. discriminate.
Qed.

Lemma C10_expiry_is_second_clock_reading_witness :
  ∃ session,
    upload_sessions
      (run (initialize_chunked_upload "u1" 10 11 demo_request None None) empty_state)
      !! "u1" = Some session
    ∧ createdAt session = 10
    ∧ expiresAt session = 11.
Proof.
  destruct (C10_expiry_is_second_clock_reading "u1" 10 11 demo_request None None
              empty_state
              {| ir_uploadId := "u1"; ir_chunkSize := 3; ir_totalChunks := 2;
                 ir_expiresAt := 11 |}
              (run (initialize_chunked_upload "u1" 10 11 demo_request None None)
                 empty_state))
    as (session & H1 & H2 & H3 & _).
  - vm_compute. reflexivity.
  - exists session. split_and!; done.
Defined.

(** ** [upload_chunk] *)

Lemma dict_contains_true k d : dict_contains k d = true ↔ k ∈ keys d.
Proof. unfold dict_contains. apply bool_decide_eq_true. Qed.

Lemma dict_contains_false k d : dict_contains k d = false ↔ k ∉ keys d.
Proof. unfold dict_contains. apply bool_decide_eq_false. Qed.

(** The four paths through [upload_chunk]. *)
Lemma upload_not_found uploadId chunkIndex chunk_data st :
  upload_sessions st !! uploadId = None →
  upload_chunk uploadId chunkIndex chunk_data st
  = (Raise (HTTPException 500 (FailedToUploadChunk
       (HTTPException 404 UploadSessionNotFound))), st).
Proof.
  intros Hs. unfold upload_chunk, try_except, bind, get_sessions, raise.
  rewrite Hs. reflexivity.
Qed.

Lemma upload_bad_index uploadId chunkIndex chunk_data st session :
  upload_sessions st !! uploadId = Some session →
  chunkIndex < 0 ∨ chunkIndex >= totalChunks session →
  upload_chunk uploadId chunkIndex chunk_data st
  = (Raise (HTTPException 500 (FailedToUploadChunk (HTTPException 400
       (InvalidChunkIndex chunkIndex (totalChunks session - 1))))), st).
Proof.
  intros Hs Hi. unfold upload_chunk, try_except, bind, get_sessions, raise.
  rewrite Hs. rewrite decide_True by done. reflexivity.
Qed.

Lemma upload_resend uploadId chunkIndex chunk_data st session :
  upload_sessions st !! uploadId = Some session →
  0 ≤ chunkIndex < totalChunks session →
  chunkIndex ∈ keys (chunks session) →
  upload_chunk uploadId chunkIndex chunk_data st
  = (Ok {| uc_success := true; uc_chunkIndex := None; uc_chunkSize := None;
           uc_message := AlreadyReceived chunkIndex |}, st).
Proof.
  intros Hs Hi Hk. unfold upload_chunk, try_except, bind, get_sessions, ret.
  rewrite Hs. rewrite decide_False by lia.
  apply dict_contains_true in Hk. rewrite Hk. reflexivity.
Qed.

Lemma upload_fresh uploadId chunkIndex chunk_data st session :
  upload_sessions st !! uploadId = Some session →
  0 ≤ chunkIndex < totalChunks session →
  chunkIndex ∉ keys (chunks session) →
  upload_chunk uploadId chunkIndex chunk_data st
  = (Ok {| uc_success := true;
           uc_chunkIndex := Some chunkIndex;
           uc_chunkSize := Some (Z.of_nat (length chunk_data));
           uc_message := UploadedSuccessfully chunkIndex |},
     {| upload_sessions :=
          <[uploadId := record_chunk session chunkIndex
                          (chunk_file uploadId chunkIndex)]> (upload_sessions st);
        disk := <[chunk_file uploadId chunkIndex := chunk_data]> (disk st) |}).
Proof.
  intros Hs Hi Hk.
  unfold upload_chunk, try_except, bind, get_sessions, ret, write_file,
    store_session.
  rewrite Hs. rewrite decide_False by lia.
  apply dict_contains_false in Hk. rewrite Hk. reflexivity.
Qed.

(** The case analysis the four lemmas support. *)
Lemma upload_chunk_cases (uploadId : string) (chunkIndex : Z) st :
  upload_sessions st !! uploadId = None
  ∨ ∃ session, upload_sessions st !! uploadId = Some session
      ∧ ((chunkIndex < 0 ∨ chunkIndex >= totalChunks session)
         ∨ (0 ≤ chunkIndex < totalChunks session
            ∧ chunkIndex ∈ keys (chunks session))
         ∨ (0 ≤ chunkIndex < totalChunks session
            ∧ chunkIndex ∉ keys (chunks session))).
Proof.
  destruct (upload_sessions st !! uploadId) as [session|]; [right|by left].
  exists session. split; [done|].
  destruct (decide (chunkIndex < 0 ∨ chunkIndex >= totalChunks session));
    [by left|right].
  destruct (decide (chunkIndex ∈ keys (chunks session))); [left|right];
    (split; [lia|done]).
Qed.

(** Assignment to a new key of the dictionary. *)
Lemma dict_set_new k v d : k ∉ keys d → dict_set k v d = d ++ [(k, v)].
Proof.
  induction d as [|[k' v'] d IH]; intros Hk; [done|].
  simpl in *. rewrite not_elem_of_cons in Hk. destruct Hk as [Hne Hk].
  rewrite decide_False by done. by rewrite IH.
Qed.

Lemma keys_dict_set_new k v d : k ∉ keys d → keys (dict_set k v d) = keys d ++ [k].
Proof. intros Hk. rewrite dict_set_new by done. unfold keys. by rewrite fmap_app. Qed.


Lemma dict_lookup_Some k v d :
  NoDup (keys d) → dict_lookup k d = Some v ↔ (k, v) ∈ d.
Proof.
  induction d as [|[k' v'] d IH]; simpl; intros Hnd.
  - split; [done|]. intros H. by apply elem_of_nil in H.
  - apply NoDup_cons in Hnd as [Hk' Hnd].
    case_decide as Hk.
    + subst. split.
      * intros [= ->]. left.
      * intros Hin. apply elem_of_cons in Hin as [[= ->]|Hin]; [done|].
        exfalso. apply Hk'. apply list_elem_of_fmap. by exists (k, v).
    + rewrite IH by done. rewrite elem_of_cons.
      split; [by right|]. by intros [[= -> ->]|].
Qed.




(** C9, as stated, fails on a re-send: the response to the second sending of
    chunk 0 has neither the key [chunkIndex] nor the key [chunkSize]. *)
Lemma C9_resend_counterexample :
  ∃ r st',
    upload_chunk "u1" 0 (b "foo") demo_state = (Ok r, st')
    ∧ uc_success r = true
    ∧ uc_chunkIndex r = None
    ∧ uc_chunkSize r = None.
Proof. eexists _, _. split; [vm_compute; reflexivity|done]. Qed.

(** C9, amended. A successful [upload_chunk] of an index the session had not
    recorded returns the chunk index and the byte length of the payload; a
    successful re-send of a recorded index returns success and a message that
    names the index, without the keys [chunkIndex] and [chunkSize]. *)
Theorem C9_upload_chunk_result uploadId chunkIndex chunk_data st r st' :
  upload_chunk uploadId chunkIndex chunk_data st = (Ok r, st') →
  ∃ session,
    upload_sessions st !! uploadId = Some session
    ∧ uc_success r = true
    ∧ (((chunkIndex ∉ keys (chunks session))
        ∧ uc_chunkIndex r = Some chunkIndex
        ∧ uc_chunkSize r = Some (Z.of_nat (length chunk_data))
        ∧ uc_message r = UploadedSuccessfully chunkIndex)
       ∨ (chunkIndex ∈ keys (chunks session)
          ∧ uc_chunkIndex r = None
          ∧ uc_chunkSize r = None
          ∧ uc_message r = AlreadyReceived chunkIndex
          ∧ st' = st)).
Proof.
  intros Hrun.
  destruct (upload_chunk_cases uploadId chunkIndex st)
    as [Hs|(session & Hs & [Hi|[[Hi Hk]|[Hi Hk]]])].
  - rewrite upload_not_found in Hrun by done. discriminate.
  - rewrite (upload_bad_index _ _ _ _ session) in Hrun by done. discriminate.
  - rewrite (upload_resend _ _ _ _ session) in Hrun by done.
    injection Hrun as <- <-. exists session. split_and!; try done. by right.
  - rewrite (upload_fresh _ _ _ _ session) in Hrun by done.
    injection Hrun as <- <-. exists session. split_and!; try done. by left.
Qed.

(** The first sending of chunk 1 ("bar", three bytes) after chunk 0. *)
Lemma C9_upload_chunk_result_witness :
  ∃ r st',
    upload_chunk "u1" 1 (b "bar")
      (run (upload_chunk "u1" 0 (b "foo"))
         (run (initialize_chunked_upload "u1" 10 11 demo_request None None)
            empty_state)) = (Ok r, st')
    ∧ uc_chunkIndex r = Some 1
    ∧ uc_chunkSize r = Some 3.
Proof.
  eexists _, _.
  match goal with
  | |- ?run = (Ok ?r, ?s) ∧ _ =>
      assert (Hrun : run = (Ok r, s)) by (vm_compute; reflexivity)
  end.
  split; [exact Hrun|].
  destruct (C9_upload_chunk_result _ _ _ _ _ _ Hrun)
    as (session & _ & _ & [(_ & Hi & Hz & _)|(_ & Hi & _)]).
  - split; [exact Hi|exact Hz].
  - simpl in Hi. discriminate.
Defined.

(** ** Removing files *)

Lemma set_disk_id st : set_disk (disk st) st = st.
Proof. by destruct st. Qed.

Lemma elem_of_range i n : i ∈ range n ↔ 0 ≤ i < n.
Proof. unfold range. rewrite elem_of_seqZ. lia. Qed.

(** [try: p.unlink() except: pass] removes the file when there is one. *)
Lemma try_unlink p st :
  ignore_errors (unlink p) st = (Ok tt, set_disk (delete p (disk st)) st).
Proof.
  unfold ignore_errors, try_except, unlink, ret.
  destruct (disk st !! p) eqn:Hp; [done|].
  rewrite delete_id by done. by rewrite set_disk_id.
Qed.

Lemma unlink_each paths st :
  for_each paths (λ p, ignore_errors (unlink p)) st
  = (Ok tt, set_disk (remove_all paths (disk st)) st).
Proof.
  revert st. induction paths as [|p paths IH]; intros st; simpl.
  - unfold ret. by rewrite set_disk_id.
  - unfold bind. rewrite try_unlink. rewrite IH. by destruct st.
Qed.

Lemma remove_all_cons p paths d :
  remove_all (p :: paths) d = remove_all paths (delete p d).
Proof. reflexivity. Qed.

Lemma lookup_remove_all paths d p :
  remove_all paths d !! p = if decide (p ∈ paths) then None else d !! p.
Proof.
  revert d. induction paths as [|q paths IH]; intros d.
  - rewrite decide_False; [done|apply not_elem_of_nil].
  - rewrite remove_all_cons, IH. destruct (decide (p ∈ paths)) as [Hin|Hin].
    + rewrite decide_True; [done|by right].
    + destruct (decide (q = p)) as [->|Hne].
      * rewrite decide_True by left. apply lookup_delete_eq.
      * rewrite decide_False by (rewrite elem_of_cons; intros [|]; done).
        by apply lookup_delete_ne.
Qed.

Lemma remove_all_gone paths d p : p ∈ paths → remove_all paths d !! p = None.
Proof. intros Hp. rewrite lookup_remove_all. by rewrite decide_True. Qed.

Lemma remove_all_other paths d p : p ∉ paths → remove_all paths d !! p = d !! p.
Proof. intros Hp. rewrite lookup_remove_all. by rewrite decide_False. Qed.

(** ** [cancel_chunked_upload] and [get_upload_status] *)

Lemma cancel_found upload_id st session :
  upload_sessions st !! upload_id = Some session →
  cancel_chunked_upload upload_id st
  = (Ok upload_id,
     {| upload_sessions := delete upload_id (upload_sessions st);
        disk := remove_all (values (chunks session)) (disk st) |}).
Proof.
  intros Hs. unfold cancel_chunked_upload, bind, get_sessions.
  rewrite Hs. rewrite unlink_each. unfold del_session. simpl.
  rewrite Hs. reflexivity.
Qed.

Lemma cancel_not_found upload_id st :
  upload_sessions st !! upload_id = None →
  cancel_chunked_upload upload_id st
  = (Raise (HTTPException 404 UploadSessionNotFound), st).
Proof.
  intros Hs. unfold cancel_chunked_upload, bind, get_sessions. by rewrite Hs.
Qed.

Lemma status_not_found upload_id st :
  upload_sessions st !! upload_id = None →
  get_upload_status upload_id st
  = (Raise (HTTPException 404 UploadSessionNotFound), st).
Proof.
  intros Hs. unfold get_upload_status, bind, get_sessions. by rewrite Hs.
Qed.

(** C7. [cancel_chunked_upload] on an existing session succeeds, whether or
    not each chunk file could be removed; afterwards the session is not in the
    registry, no file recorded in the session is on the disk, and
    [get_upload_status] on that id fails with "Upload session not found". *)
Theorem C7_cancel_cleans_up upload_id st session :
  upload_sessions st !! upload_id = Some session →
  ∃ st',
    cancel_chunked_upload upload_id st = (Ok upload_id, st')
    ∧ upload_sessions st' = delete upload_id (upload_sessions st)
    ∧ upload_sessions st' !! upload_id = None
    ∧ (∀ p, p ∈ values (chunks session) → disk st' !! p = None)
    ∧ (∀ i p, (i, p) ∈ chunks session → disk st' !! p = None)
    ∧ get_upload_status upload_id st'
      = (Raise (HTTPException 404 UploadSessionNotFound), st').
Proof.
  intros Hs. eexists. split; [by apply cancel_found|]. simpl.
  assert (Hgone : ∀ p, p ∈ values (chunks session) →
            remove_all (values (chunks session)) (disk st) !! p = None)
    by (intros p Hp; by apply remove_all_gone).
  split_and!.
  - done.
  - apply lookup_delete_eq.
  - done.
  - intros i p Hin. apply Hgone. apply list_elem_of_fmap. by exists (i, p).
  - apply status_not_found. apply lookup_delete_eq.
Qed.

(** Cancelling the two-chunk example removes the session and both chunk
    files. *)
Lemma C7_cancel_cleans_up_witness :
  ∃ st',
    cancel_chunked_upload "u1" demo_state = (Ok "u1", st')
    ∧ upload_sessions st' !! "u1" = None
    ∧ disk demo_state !! chunk_file "u1" 0 = Some (b "foo")
    ∧ disk st' !! chunk_file "u1" 0 = None
    ∧ disk st' !! chunk_file "u1" 1 = None
    ∧ get_upload_status "u1" st'
      = (Raise (HTTPException 404 UploadSessionNotFound), st').
Proof.
  destruct (upload_sessions demo_state !! "u1") as [session|] eqn:Hs;
    [|vm_compute in Hs; discriminate].
  destruct (C7_cancel_cleans_up "u1" demo_state session Hs)
    as (st' & Hrun & _ & Hgone & _ & Hfiles & Hstatus).
  assert (Hc : chunks session
               = [(0, chunk_file "u1" 0); (1, chunk_file "u1" 1)]).
  { vm_compute in Hs. injection Hs as <-. vm_compute. reflexivity. }
  exists st'. split; [exact Hrun|]. split; [exact Hgone|].
  split; [vm_compute; reflexivity|].
  split; [|split; [|exact Hstatus]].
  - apply (Hfiles 0 (chunk_file "u1" 0)). rewrite Hc. left.
  - apply (Hfiles 1 (chunk_file "u1" 1)). rewrite Hc. right. left.
Defined.

(** ** Paths of chunk files and of assembled files *)

Lemma chunk_file_inj upload_id i j :
  chunk_file upload_id i = chunk_file upload_id j → i = j.
Proof.
  unfold chunk_file, chunk_storage_path. simpl. intros [= H].
  apply (inj (String.app upload_id)) in H.
  apply (inj (String.app "_chunk_")) in H.
  by apply (inj pretty) in H.
Qed.

(** *** [pathlib] on plain names *)

Lemma split_slash_plain s : has_char "/"%char s = false → split_slash s = [s].
Proof.
  induction s as [|c s IH]; [done|]. simpl.
  intros H. apply orb_false_iff in H as [Hc Hs].
  apply bool_decide_eq_false in Hc.
  rewrite decide_False by done. by rewrite IH.
Qed.

Lemma path_root_plain s : has_char "/"%char s = false → path_root s = [].
Proof.
  destruct s as [|c s]; [done|]. simpl. intros H.
  apply orb_false_iff in H as [Hc _]. apply bool_decide_eq_false in Hc.
  destruct c as [[] [] [] [] [] [] [] []]; try done.
Qed.

Lemma parse_path_plain s : plain_name s → parse_path s = [s].
Proof.
  intros (Hne & Hdot & _ & Hslash & _). unfold parse_path.
  rewrite path_root_plain, split_slash_plain by done. simpl.
  rewrite filter_cons_True; [done|]. by split.
Qed.

Lemma path_join_plain p s : plain_name s → path_join p (parse_path s) = p ++ [s].
Proof.
  intros Hs. rewrite parse_path_plain by done. unfold path_join. simpl.
  destruct Hs as (_ & _ & _ & Hslash & _).
  rewrite bool_decide_eq_false_2; [done|].
  intros [H|H]; rewrite H in Hslash; done.
Qed.

Lemma plain_name_no_null s : plain_name s → has_char "000"%char s = false.
Proof. by intros (_ & _ & _ & _ & H & _). Qed.

Lemma is_absolute_head p :
  is_absolute p = true →
  ∃ root rest, p = root :: rest ∧ (root = "/" ∨ root = "//").
Proof.
  destruct p as [|root rest]; [done|]. simpl. intros H.
  apply bool_decide_eq_true in H. eauto.
Qed.

(** A path joined to a path under [static] is under [static], or is
    absolute. *)
Lemma path_join_head p q :
  under_static p = true →
  ∃ root rest, path_join p q = root :: rest
               ∧ (root = "static" ∨ root = "/" ∨ root = "//").
Proof.
  intros Hp. unfold path_join.
  destruct (is_absolute q) eqn:Hq.
  - apply is_absolute_head in Hq as (root & rest & -> & H). exists root, rest. tauto.
  - destruct p as [|c p]; [done|]. simpl in Hp. apply bool_decide_eq_true in Hp.
    subst c. exists "static", (p ++ q). auto.
Qed.

Lemma upload_dir_head session :
  ∃ root rest, upload_dir_of session = root :: rest
               ∧ (root = "static" ∨ root = "/" ∨ root = "//").
Proof.
  unfold upload_dir_of.
  destruct (truthy (projectId session)), (truthy (folderId session));
    try (by apply path_join_head); eauto 6.
Qed.

Lemma final_file_head file_id session :
  ∃ root rest, final_file_path_of file_id session = root :: rest
               ∧ (root = "static" ∨ root = "/" ∨ root = "//").
Proof.
  unfold final_file_path_of, path_join.
  destruct (is_absolute _) eqn:Hq.
  - apply is_absolute_head in Hq as (root & rest & -> & H). exists root, rest. tauto.
  - destruct (upload_dir_head session) as (root & rest & -> & H).
    simpl. eauto.
Qed.

Lemma final_file_is_no_chunk_file file_id session upload_id i :
  final_file_path_of file_id session ≠ chunk_file upload_id i.
Proof.
  destruct (final_file_head file_id session) as (root & rest & -> & H).
  unfold chunk_file, chunk_storage_path. simpl. intros [= -> _].
  by destruct H as [H|[H|H]].
Qed.

(** The directory that a plain project or folder id names. *)
Lemma upload_dir_plain session :
  plain_scope session →
  upload_dir_of session
  = match truthy (projectId session), truthy (folderId session) with
    | Some project_id, _ => ["static"; "uploads"; project_id]
    | None, Some folder_id => ["static"; "uploads"; "folders"; folder_id]
    | None, None => ["static"; "uploads"; "temp"]
    end.
Proof.
  unfold plain_scope, upload_dir_of.
  destruct (truthy (projectId session)), (truthy (folderId session));
    try done; intros H; by rewrite path_join_plain.
Qed.

Lemma upload_dir_no_null session :
  plain_scope session → embedded_null (upload_dir_of session) = false.
Proof.
  intros H. rewrite upload_dir_plain by done. unfold plain_scope in H.
  destruct (truthy (projectId session)), (truthy (folderId session));
    try done; simpl; by rewrite plain_name_no_null.
Qed.

Lemma embedded_null_app p q :
  embedded_null (p ++ q) = embedded_null p || embedded_null q.
Proof. unfold embedded_null. apply existsb_app. Qed.

Lemma mkdir_error_free p d :
  embedded_null p = false →
  (∀ q, q ∈ ancestors p ++ [p] → d !! q = None) →
  mkdir_error p d = None.
Proof.
  intros Hnull Hfree. unfold mkdir_error. rewrite Hnull.
  rewrite decide_False.
  - rewrite decide_False; [done|].
    rewrite (Hfree p); [by intros [? ?]|].
    apply elem_of_app. right. by apply list_elem_of_singleton.
  - rewrite Exists_exists. intros (q & Hq & Hsome).
    rewrite (Hfree q) in Hsome; [by destruct Hsome|].
    apply elem_of_app. by left.
Qed.

Lemma open_error_entry dir c :
  embedded_null (dir ++ [c]) = false → open_error dir (dir ++ [c]) = None.
Proof.
  intros Hnull. unfold open_error. rewrite Hnull.
  rewrite decide_True; [done|]. split.
  - by destruct dir.
  - apply removelast_last.
Qed.

(** An accepted destination: both calls that make it succeed, and the file
    is an entry of the directory, under [static]. *)
Lemma destination_accepted_ok file_id session d :
  destination_accepted file_id session d →
  destination_error file_id session d = None
  ∧ final_file_path_of file_id session
    = upload_dir_of session ++ [file_id +:+ "_" +:+ fileName session]
  ∧ under_static (final_file_path_of file_id session) = true.
Proof.
  intros (Hname & Hscope & Hfree).
  assert (Hfinal : final_file_path_of file_id session
                   = upload_dir_of session ++ [file_id +:+ "_" +:+ fileName session]).
  { unfold final_file_path_of. by rewrite path_join_plain. }
  split_and!; [|done|].
  - unfold destination_error.
    rewrite mkdir_error_free by (done || by apply upload_dir_no_null).
    rewrite Hfinal. apply open_error_entry.
    rewrite embedded_null_app, upload_dir_no_null by done. simpl.
    by rewrite plain_name_no_null.
  - rewrite Hfinal, upload_dir_plain by done.
    destruct (truthy (projectId session)), (truthy (folderId session)); done.
Qed.

(** The directory of a destination and the directories above it are no
    chunk files, so writing chunk files leaves a destination as it is. *)
Lemma ancestors_head p q :
  q ∈ ancestors p ++ [p] → p ≠ [] → head q = head p.
Proof.
  intros Hq Hp. apply elem_of_app in Hq as [Hq|Hq].
  - unfold ancestors in Hq. apply list_elem_of_fmap in Hq as (n & -> & Hn).
    apply elem_of_seq in Hn. destruct n as [|n]; [lia|].
    by destruct p.
  - apply list_elem_of_singleton in Hq. by subst.
Qed.

Lemma destination_accepted_frame file_id session upload_id d d' :
  destination_accepted file_id session d →
  (∀ q, (∀ i, q ≠ chunk_file upload_id i) → d' !! q = d !! q) →
  destination_accepted file_id session d'.
Proof.
  intros (Hname & Hscope & Hfree) Hframe. split_and!; [done|done|].
  intros q Hq. rewrite Hframe; [by apply Hfree|].
  intros i Hqi.
  destruct (upload_dir_head session) as (root & rest & Hdir & Hroot).
  apply ancestors_head in Hq; [|by rewrite Hdir].
  rewrite Hdir, Hqi in Hq. unfold chunk_file, chunk_storage_path in Hq.
  simpl in Hq. injection Hq as <-. by destruct Hroot as [H|[H|H]].
Qed.

(** The destination of an upload without a project or a folder. *)
Lemma temp_destination file_id session d :
  projectId session = None →
  folderId session = None →
  plain_name (file_id +:+ "_" +:+ fileName session) →
  temp_dir_free d →
  destination_accepted file_id session d
  ∧ final_file_path_of file_id session
    = ["static"; "uploads"; "temp"; file_id +:+ "_" +:+ fileName session].
Proof.
  intros Hp Hf Hname (H1 & H2 & H3).
  assert (Hacc : destination_accepted file_id session d).
  { unfold destination_accepted, plain_scope, upload_dir_of.
    rewrite Hp, Hf. split_and!; [done|done|].
    intros q. unfold ancestors. cbn. rewrite !elem_of_cons.
    intros [->|[->|[->|Hnil]]]; [done|done|done|by apply elem_of_nil in Hnil]. }
  split; [done|].
  destruct (destination_accepted_ok _ _ _ Hacc) as (_ & -> & _).
  unfold upload_dir_of. by rewrite Hp, Hf.
Qed.

Lemma relative_to_static p st :
  relative_to p ["static"] st
  = if under_static p then (Ok (tail p), st) else (Raise ValueError, st).
Proof.
  destruct p as [|c rest]; [done|]. simpl.
  destruct (decide ("static" = c)) as [<-|Hc].
  - by destruct rest.
  - rewrite bool_decide_eq_false_2; [done|]. congruence.
Qed.

Lemma under_static_tail p : under_static p = true → "static" :: tail p = p.
Proof.
  destruct p as [|c rest]; [done|]. simpl. intros H.
  apply bool_decide_eq_true in H. by subst.
Qed.

(** ** [sorted] *)

Lemma sorted_Permutation l : sorted l ≡ₚ l.
Proof. apply merge_sort_Permutation. Qed.

Lemma sorted_Sorted l : Sorted Z.le (sorted l).
Proof. apply Sorted_merge_sort. apply _. Qed.


Lemma range_Sorted n : Sorted Z.le (range n).
Proof.
  unfold range, seqZ. generalize (Z.to_nat n) as k. intros k.
  generalize 0%nat as s. induction k as [|k IH]; intros s; simpl.
  - constructor.
  - constructor; [apply IH|].
    destruct k; simpl; constructor. lia.
Qed.

(** The sorted keys of a session that received every index. *)
Lemma sorted_keys_full session :
  NoDup (keys (chunks session)) →
  fully_received session →
  sorted (keys (chunks session)) = range (totalChunks session).
Proof.
  intros Hnd Hfull.
  apply (Sorted_unique Z.le); [apply sorted_Sorted|apply range_Sorted|].
  rewrite sorted_Permutation.
  apply NoDup_Permutation; [done|apply NoDup_seqZ|].
  intros i. rewrite elem_of_range. apply Hfull.
Qed.

Lemma received_eq_expected session :
  fully_received session ↔
  list_to_set (keys (chunks session)) =@{gset Z}
    list_to_set (range (totalChunks session)).
Proof.
  unfold fully_received. rewrite set_eq.
  setoid_rewrite elem_of_list_to_set. by setoid_rewrite elem_of_range.
Qed.

Lemma fully_received_cases session :
  fully_received session ∨ ¬ fully_received session.
Proof.
  rewrite received_eq_expected.
  destruct (decide (list_to_set (keys (chunks session)) =@{gset Z}
                      list_to_set (range (totalChunks session)))); auto.
Qed.

(** ** [complete_chunked_upload] *)

Lemma cleanup_found upload_id st session :
  upload_sessions st !! upload_id = Some session →
  cleanup_on_error upload_id st
  = (Ok tt, {| upload_sessions := delete upload_id (upload_sessions st);
               disk := remove_all (values (chunks session)) (disk st) |}).
Proof.
  intros Hs. unfold cleanup_on_error, bind, get_sessions.
  rewrite Hs. rewrite unlink_each. unfold del_session. simpl.
  by rewrite Hs.
Qed.

Lemma cleanup_not_found upload_id st :
  upload_sessions st !! upload_id = None →
  cleanup_on_error upload_id st = (Ok tt, st).
Proof.
  intros Hs. unfold cleanup_on_error, bind, get_sessions. by rewrite Hs.
Qed.

(** The assembly loop leaves the registry alone. *)
Lemma assemble_sessions session final indices total st :
  upload_sessions (assemble session final indices total st).2
  = upload_sessions st.
Proof.
  revert total st. induction indices as [|i indices IH]; intros total st; [done|].
  simpl. unfold bind, dict_get.
  destruct (dict_lookup i (chunks session)) as [p|]; [|done].
  unfold ret, read_file. destruct (disk st !! p) as [data|]; [|done].
  unfold write. rewrite try_unlink. rewrite IH. done.
Qed.


Lemma complete_not_found file_id request st :
  upload_sessions st !! cq_uploadId request = None →
  complete_chunked_upload file_id request st
  = (Raise (HTTPException 500 (FailedToCompleteUpload
       (HTTPException 404 UploadSessionNotFound))), st).
Proof.
  intros Hs. unfold complete_chunked_upload, try_except, bind, get_sessions, raise.
  rewrite Hs. by rewrite cleanup_not_found.
Qed.

(** The completeness gate: the session lacks an index, or holds one that is
    not expected. *)
Lemma complete_missing file_id request st session :
  upload_sessions st !! cq_uploadId request = Some session →
  ¬ fully_received session →
  complete_chunked_upload file_id request st
  = (Raise (HTTPException 500 (FailedToCompleteUpload (HTTPException 400
       (MissingChunks
          (elements (list_to_set (range (totalChunks session))
                       ∖ list_to_set (keys (chunks session)) : gset Z)))))),
     {| upload_sessions := delete (cq_uploadId request) (upload_sessions st);
        disk := remove_all (values (chunks session)) (disk st) |}).
Proof.
  intros Hs Hfull. rewrite received_eq_expected in Hfull.
  unfold complete_chunked_upload, try_except, bind, get_sessions, raise.
  rewrite Hs. rewrite decide_True by done.
  by rewrite (cleanup_found _ _ session).
Qed.

(** Past the completeness gate, the outcome in terms of the assembly loop. *)
Lemma complete_full file_id request st session :
  upload_sessions st !! cq_uploadId request = Some session →
  fully_received session →
  complete_chunked_upload file_id request st
  = let upload_id := cq_uploadId request in
    let final := final_file_path_of file_id session in
    match destination_error file_id session (disk st) with
    | Some e =>
        (Raise (HTTPException 500 (FailedToCompleteUpload e)),
         {| upload_sessions := delete upload_id (upload_sessions st);
            disk := remove_all (values (chunks session)) (disk st) |})
    | None =>
        match assemble session final (sorted (keys (chunks session))) 0
                (set_disk (<[final := []]> (disk st)) st) with
        | (Ok total, st1) =>
            if decide (total ≠ totalSize session) then
              match disk st1 !! final with
              | Some _ =>
                  (Raise (HTTPException 500 (FailedToCompleteUpload (HTTPException 400
                     (FileSizeMismatch (totalSize session) total)))),
                   {| upload_sessions := delete upload_id (upload_sessions st);
                      disk := remove_all (values (chunks session))
                                (delete final (disk st1)) |})
              | None =>
                  (Raise (HTTPException 500 (FailedToCompleteUpload
                     (FileNotFoundError final))),
                   {| upload_sessions := delete upload_id (upload_sessions st);
                      disk := remove_all (values (chunks session)) (disk st1) |})
              end
            else if under_static final then
              (Ok (complete_response file_id session total),
               {| upload_sessions := delete upload_id (upload_sessions st);
                  disk := disk st1 |})
            else
              (Raise (HTTPException 500 (FailedToCompleteUpload ValueError)),
               {| upload_sessions := delete upload_id (upload_sessions st);
                  disk := remove_all (values (chunks session)) (disk st1) |})
        | (Raise e, st1) =>
            (Raise (HTTPException 500 (FailedToCompleteUpload e)),
             {| upload_sessions := delete upload_id (upload_sessions st);
                disk := remove_all (values (chunks session)) (disk st1) |})
        end
    end.
Proof.
  intros Hs Hfull. rewrite received_eq_expected in Hfull.
  unfold complete_chunked_upload, try_except, bind, get_sessions, raise.
  rewrite Hs. rewrite decide_False by (intros H; by apply H).
  unfold destination_error, mkdir, open_wb. cbv zeta.
  destruct (mkdir_error _ _) as [e|].
  { by rewrite (cleanup_found _ _ session). }
  destruct (open_error _ _) as [e|].
  { by rewrite (cleanup_found _ _ session). }
  pose proof (assemble_sessions session (final_file_path_of file_id session)
                (sorted (keys (chunks session))) 0
                (set_disk (<[final_file_path_of file_id session := []]> (disk st)) st))
    as Hreg.
  destruct (assemble _ _ _ _ _) as [[total|e] st1]; simpl in Hreg.
  - case_decide as Hsize.
    + unfold unlink. destruct (disk st1 !! final_file_path_of file_id session).
      * rewrite (cleanup_found _ _ session) by (simpl; by rewrite Hreg).
        simpl. by rewrite Hreg.
      * rewrite (cleanup_found _ _ session) by (by rewrite Hreg).
        by rewrite Hreg.
    + rewrite relative_to_static.
      destruct (under_static _) eqn:Hunder.
      * unfold complete_response. rewrite under_static_tail by done.
        unfold del_session. rewrite Hreg, Hs. done.
      * rewrite (cleanup_found _ _ session) by (by rewrite Hreg).
        by rewrite Hreg.
  - rewrite (cleanup_found _ _ session) by (by rewrite Hreg).
    by rewrite Hreg.
Qed.

(** The same, for a destination that can be made. *)
Lemma complete_full_accepted file_id request st session :
  upload_sessions st !! cq_uploadId request = Some session →
  fully_received session →
  destination_accepted file_id session (disk st) →
  complete_chunked_upload file_id request st
  = let upload_id := cq_uploadId request in
    let final := final_file_path_of file_id session in
    match assemble session final (sorted (keys (chunks session))) 0
            (set_disk (<[final := []]> (disk st)) st) with
    | (Ok total, st1) =>
        if decide (total ≠ totalSize session) then
          match disk st1 !! final with
          | Some _ =>
              (Raise (HTTPException 500 (FailedToCompleteUpload (HTTPException 400
                 (FileSizeMismatch (totalSize session) total)))),
               {| upload_sessions := delete upload_id (upload_sessions st);
                  disk := remove_all (values (chunks session))
                            (delete final (disk st1)) |})
          | None =>
              (Raise (HTTPException 500 (FailedToCompleteUpload
                 (FileNotFoundError final))),
               {| upload_sessions := delete upload_id (upload_sessions st);
                  disk := remove_all (values (chunks session)) (disk st1) |})
          end
        else
          (Ok (complete_response file_id session total),
           {| upload_sessions := delete upload_id (upload_sessions st);
              disk := disk st1 |})
    | (Raise e, st1) =>
        (Raise (HTTPException 500 (FailedToCompleteUpload e)),
         {| upload_sessions := delete upload_id (upload_sessions st);
            disk := remove_all (values (chunks session)) (disk st1) |})
    end.
Proof.
  intros Hs Hfull Hacc.
  destruct (destination_accepted_ok _ _ _ Hacc) as (Herr & _ & Hunder).
  rewrite (complete_full _ _ _ session) by done. cbv zeta.
  by rewrite Herr, Hunder.
Qed.

(** C1, as stated, fails: completing a session that has chunks 0 and 2 of 3
    reports chunk 1 as missing, and then the session is no longer in the
    registry and the file of chunk 0 is no longer on the disk. *)
Lemma C1_incomplete_upload_counterexample :
  ∃ session st',
    upload_sessions gate_state !! "u1" = Some session
    ∧ keys (chunks session) = [0; 2]
    ∧ totalChunks session = 3
    ∧ complete_chunked_upload "f1" demo_complete gate_state
      = (Raise (HTTPException 500 (FailedToCompleteUpload (HTTPException 400
           (MissingChunks [1])))), st')
    ∧ upload_sessions st' !! "u1" = None
    ∧ disk gate_state !! chunk_file "u1" 0 = Some (b "a")
    ∧ disk st' !! chunk_file "u1" 0 = None.
Proof.
  eexists _, _. split; [vm_compute; reflexivity|].
  split; [reflexivity|]. split; [reflexivity|].
  split; [vm_compute; reflexivity|].
  split; [vm_compute; reflexivity|].
  split; vm_compute; reflexivity.
Qed.

(** C1, amended. For a session whose recorded indices are a strict subset of
    [[0, totalChunks)], [complete_chunked_upload] fails with the
    missing-chunks error, which lists exactly the indices not received, each
    once; the error reaches the caller as the cause of the handler's "Failed
    to complete upload". The handler's cleanup then removes the session from
    the registry and every file recorded in the session from the disk; no
    other session and no other file is touched. *)
Theorem C1_incomplete_upload_is_discarded file_id request st session :
  upload_sessions st !! cq_uploadId request = Some session →
  (∀ i, i ∈ keys (chunks session) → 0 ≤ i < totalChunks session) →
  (∃ i, 0 ≤ i < totalChunks session ∧ i ∉ keys (chunks session)) →
  ∃ missing st',
    complete_chunked_upload file_id request st
    = (Raise (HTTPException 500 (FailedToCompleteUpload (HTTPException 400
         (MissingChunks missing)))), st')
    ∧ missing ≠ []
    ∧ NoDup missing
    ∧ (∀ i, i ∈ missing ↔ 0 ≤ i < totalChunks session ∧ i ∉ keys (chunks session))
    ∧ upload_sessions st' = delete (cq_uploadId request) (upload_sessions st)
    ∧ upload_sessions st' !! cq_uploadId request = None
    ∧ disk st' = remove_all (values (chunks session)) (disk st)
    ∧ (∀ p, p ∈ values (chunks session) → disk st' !! p = None)
    ∧ (∀ p, p ∉ values (chunks session) → disk st' !! p = disk st !! p).
Proof.
  intros Hs Hsub (i0 & Hi0 & Hk0).
  assert (Hnot : ¬ fully_received session).
  { intros Hfull. apply Hk0. by apply Hfull. }
  eexists _, _. split; [by apply complete_missing|]. simpl.
  assert (Hmem : ∀ i,
    i ∈ elements (list_to_set (range (totalChunks session))
                    ∖ list_to_set (keys (chunks session)) : gset Z)
    ↔ 0 ≤ i < totalChunks session ∧ i ∉ keys (chunks session)).
  { intros i. rewrite elem_of_elements, elem_of_difference.
    by rewrite !elem_of_list_to_set, elem_of_range. }
  split_and!.
  - intros Hnil. assert (Hin := proj2 (Hmem i0) (conj Hi0 Hk0)).
    rewrite Hnil in Hin. by apply elem_of_nil in Hin.
  - apply NoDup_elements.
  - done.
  - done.
  - apply lookup_delete_eq.
  - done.
  - intros p Hp. by apply remove_all_gone.
  - intros p Hp. by apply remove_all_other.
Qed.

Lemma C1_incomplete_upload_is_discarded_witness :
  ∃ missing st',
    complete_chunked_upload "f1" demo_complete gate_state
    = (Raise (HTTPException 500 (FailedToCompleteUpload (HTTPException 400
         (MissingChunks missing)))), st')
    ∧ (∀ i, i ∈ missing ↔ i = 1)
    ∧ upload_sessions st' !! "u1" = None.
Proof.
  destruct (upload_sessions gate_state !! "u1") as [session|] eqn:Hs;
    [|vm_compute in Hs; discriminate].
  assert (Hk : keys (chunks session) = [0; 2] ∧ totalChunks session = 3).
  { vm_compute in Hs. injection Hs as <-. split; reflexivity. }
  destruct Hk as [Hk Hn].
  destruct (C1_incomplete_upload_is_discarded "f1" demo_complete gate_state
              session Hs)
    as (missing & st' & Hrun & _ & _ & Hmem & _ & Hgone & _).
  - intros i. rewrite Hk, Hn. rewrite !elem_of_cons.
    intros [->|[->|Hnil]]; [lia|lia|by apply elem_of_nil in Hnil].
  - exists 1. rewrite Hk, Hn. split; [lia|].
    rewrite !not_elem_of_cons. split_and!; [lia|lia|apply not_elem_of_nil].
  - exists missing, st'. split; [exact Hrun|]. split; [|exact Hgone].
    intros i. rewrite Hmem. rewrite Hk, Hn. rewrite !not_elem_of_cons.
    split.
    + intros (Hr & H0 & H2 & _). lia.
    + intros ->. split_and!; [lia|lia|lia|lia|apply not_elem_of_nil].
Defined.

(** ** Assembly of stored chunks *)


Lemma chunks_stored_lookup upload_id session data d i :
  chunks_stored upload_id session data d →
  i ∈ keys (chunks session) →
  dict_lookup i (chunks session) = Some (chunk_file upload_id i)
  ∧ d !! chunk_file upload_id i = Some (data i).
Proof.
  intros [Hnd Hst] Hi.
  apply list_elem_of_fmap in Hi as ([j p] & -> & Hin). simpl.
  destruct (Hst _ _ Hin) as [-> Hd].
  split; [|done]. by apply dict_lookup_Some.
Qed.

Lemma chunks_stored_values upload_id session data d p :
  chunks_stored upload_id session data d →
  p ∈ values (chunks session) ↔
  ∃ i, i ∈ keys (chunks session) ∧ p = chunk_file upload_id i.
Proof.
  intros [Hnd Hst]. unfold values, keys. rewrite list_elem_of_fmap. split.
  - intros ([i q] & -> & Hin). exists i. split.
    + apply list_elem_of_fmap. by exists (i, q).
    + by apply Hst in Hin as [-> _].
  - intros (i & Hi & ->). apply list_elem_of_fmap in Hi as ([j q] & -> & Hin).
    exists (j, q). split; [|done]. simpl. by apply Hst in Hin as [-> _].
Qed.

(** The loop over stored chunks: every chunk of [indices] is appended to the
    file at [final] and its file is removed. *)
Lemma assemble_stored upload_id session final data indices :
  ∀ total acc st,
    NoDup (keys (chunks session)) →
    NoDup indices →
    (∀ i, i ∈ indices →
       (i, chunk_file upload_id i) ∈ chunks session
       ∧ disk st !! chunk_file upload_id i = Some (data i)) →
    (∀ i, final ≠ chunk_file upload_id i) →
    disk st !! final = Some acc →
    assemble session final indices total st
    = (Ok (total + total_length data indices),
       set_disk (<[final := acc ++ concat_chunks data indices]>
                   (remove_all (chunk_file upload_id <$> indices) (disk st))) st).
Proof.
  induction indices as [|i indices IH]; intros total acc st Hnd Hni Hin Hfin Hacc.
  - simpl. unfold ret. rewrite Z.add_0_r, app_nil_r.
    unfold remove_all. simpl. rewrite insert_id by done. by rewrite set_disk_id.
  - apply NoDup_cons in Hni as [Hi Hni].
    destruct (Hin i) as [Hrec Hfile]; [left|].
    simpl. unfold bind, dict_get.
    rewrite (proj2 (dict_lookup_Some _ _ _ Hnd) Hrec).
    unfold ret, read_file. rewrite Hfile. unfold write. rewrite try_unlink.
    simpl.
    rewrite (IH _ (acc ++ data i)); try done.
    + f_equal.
      * unfold total_length. simpl. rewrite Z.add_assoc. reflexivity.
      * destruct st as [reg d]. unfold set_disk. simpl. f_equal.
        change (list_fmap Z Path (chunk_file upload_id) indices)
          with (chunk_file upload_id <$> indices).
        change (concat_chunks data (i :: indices))
          with (data i ++ concat_chunks data indices).
        rewrite <- app_assoc.
        apply map_eq. intros q.
        destruct (decide (q = final)) as [->|Hq].
        { by rewrite !lookup_insert_eq. }
        rewrite !lookup_insert_ne by done.
        rewrite !lookup_remove_all. case_decide; [done|].
        destruct (decide (q = chunk_file upload_id i)) as [->|Hqi].
        { by rewrite !lookup_delete_eq. }
        rewrite !lookup_delete_ne by done.
        by rewrite lookup_alter_ne.
    + intros j Hj. destruct (Hin j) as [Hrecj Hfilej]; [by right|].
      split; [done|]. simpl.
      rewrite lookup_delete_ne by (intros Heq; apply chunk_file_inj in Heq; by subst).
      rewrite lookup_alter_ne by done. done.
    + simpl. rewrite lookup_delete_ne by (intros Heq; by apply (Hfin i)).
      rewrite lookup_alter_eq. by rewrite Hacc.
Qed.

(** [complete_chunked_upload] on a session that received every chunk and
    whose chunk files are in place: once the destination is made, the
    outcome is decided by the byte count and by the place of the assembled
    file. *)
Lemma complete_stored_cases file_id request st session data :
  upload_sessions st !! cq_uploadId request = Some session →
  fully_received session →
  chunks_stored (cq_uploadId request) session data (disk st) →
  let upload_id := cq_uploadId request in
  let final := final_file_path_of file_id session in
  let indices := range (totalChunks session) in
  let total := total_length data indices in
  let assembled :=
    <[final := concat_chunks data indices]>
      (remove_all (chunk_file upload_id <$> indices) (disk st)) in
  complete_chunked_upload file_id request st
  = match destination_error file_id session (disk st) with
    | Some e =>
        (Raise (HTTPException 500 (FailedToCompleteUpload e)),
         {| upload_sessions := delete upload_id (upload_sessions st);
            disk := remove_all (values (chunks session)) (disk st) |})
    | None =>
        if decide (total ≠ totalSize session) then
          (Raise (HTTPException 500 (FailedToCompleteUpload (HTTPException 400
             (FileSizeMismatch (totalSize session) total)))),
           {| upload_sessions := delete upload_id (upload_sessions st);
              disk := remove_all (values (chunks session)) (delete final assembled) |})
        else if under_static final then
          (Ok (complete_response file_id session total),
           {| upload_sessions := delete upload_id (upload_sessions st);
              disk := assembled |})
        else
          (Raise (HTTPException 500 (FailedToCompleteUpload ValueError)),
           {| upload_sessions := delete upload_id (upload_sessions st);
              disk := remove_all (values (chunks session)) assembled |})
    end.
Proof.
  intros Hs Hfull Hst. cbv zeta.
  rewrite (complete_full _ _ _ session) by done. cbv zeta.
  destruct (destination_error _ _ _); [done|].
  rewrite sorted_keys_full by (done || apply Hst).
  rewrite (assemble_stored (cq_uploadId request) session _ data _ 0 []).
  - simpl. rewrite Z.add_0_l.
    assert (Heq :
      <[final_file_path_of file_id session :=
          concat_chunks data (range (totalChunks session))]>
        (remove_all (chunk_file (cq_uploadId request) <$> range (totalChunks session))
           (<[final_file_path_of file_id session := []]> (disk st)))
      = <[final_file_path_of file_id session :=
          concat_chunks data (range (totalChunks session))]>
        (remove_all (chunk_file (cq_uploadId request) <$> range (totalChunks session))
           (disk st))).
    { apply map_eq. intros q.
      destruct (decide (q = final_file_path_of file_id session)) as [->|Hq].
      - by rewrite !lookup_insert_eq.
      - rewrite !lookup_insert_ne by done. rewrite !lookup_remove_all.
        case_decide; [done|]. by rewrite lookup_insert_ne. }
    rewrite Heq. rewrite lookup_insert_eq. done.
  - apply Hst.
  - apply NoDup_seqZ.
  - intros i Hi. apply elem_of_range in Hi. apply Hfull in Hi.
    destruct (chunks_stored_lookup _ _ _ _ _ Hst Hi) as [Hl Hd].
    split.
    + apply dict_lookup_Some; [apply Hst|done].
    + simpl. rewrite lookup_insert_ne; [done|].
      apply final_file_is_no_chunk_file.
  - intros i. apply final_file_is_no_chunk_file.
  - simpl. apply lookup_insert_eq.
Qed.

(** The same, for a destination that can be made: the outcome is decided by
    the byte count alone. *)
Lemma complete_stored file_id request st session data :
  upload_sessions st !! cq_uploadId request = Some session →
  fully_received session →
  chunks_stored (cq_uploadId request) session data (disk st) →
  destination_accepted file_id session (disk st) →
  let upload_id := cq_uploadId request in
  let final := final_file_path_of file_id session in
  let indices := range (totalChunks session) in
  let total := total_length data indices in
  let assembled :=
    <[final := concat_chunks data indices]>
      (remove_all (chunk_file upload_id <$> indices) (disk st)) in
  complete_chunked_upload file_id request st
  = if decide (total ≠ totalSize session) then
      (Raise (HTTPException 500 (FailedToCompleteUpload (HTTPException 400
         (FileSizeMismatch (totalSize session) total)))),
       {| upload_sessions := delete upload_id (upload_sessions st);
          disk := remove_all (values (chunks session)) (delete final assembled) |})
    else
      (Ok (complete_response file_id session total),
       {| upload_sessions := delete upload_id (upload_sessions st);
          disk := assembled |}).
Proof.
  intros Hs Hfull Hst Hacc. cbv zeta.
  destruct (destination_accepted_ok _ _ _ Hacc) as (Herr & _ & Hunder).
  rewrite (complete_stored_cases _ _ _ session data) by done. cbv zeta.
  by rewrite Herr, Hunder.
Qed.

(** The two-chunk examples: their sessions and chunk files. *)
Lemma demo_state_session :
  ∃ session,
    upload_sessions demo_state !! "u1" = Some session
    ∧ totalChunks session = 2
    ∧ totalSize session = 6
    ∧ fileName session = "a.pdf"
    ∧ projectId session = None
    ∧ folderId session = None
    ∧ chunks session = [(0, chunk_file "u1" 0); (1, chunk_file "u1" 1)].
Proof. eexists. split; [vm_compute; reflexivity|]. split_and!; reflexivity. Qed.

Lemma short_state_session :
  ∃ session,
    upload_sessions short_state !! "u1" = Some session
    ∧ totalChunks session = 2
    ∧ totalSize session = 6
    ∧ fileName session = "a.pdf"
    ∧ projectId session = None
    ∧ folderId session = None
    ∧ chunks session = [(0, chunk_file "u1" 0); (1, chunk_file "u1" 1)].
Proof. eexists. split; [vm_compute; reflexivity|]. split_and!; reflexivity. Qed.

Lemma two_chunks_fully_received session :
  totalChunks session = 2 →
  keys (chunks session) = [0; 1] →
  fully_received session.
Proof.
  intros Hn Hk i. rewrite Hn, Hk. rewrite !elem_of_cons. split.
  - intros [->|[->|Hnil]]; [lia|lia|by apply elem_of_nil in Hnil].
  - intros Hi. assert (i = 0 ∨ i = 1) as [->| ->] by lia; auto.
Qed.

Lemma two_chunks_stored session data d :
  chunks session = [(0, chunk_file "u1" 0); (1, chunk_file "u1" 1)] →
  d !! chunk_file "u1" 0 = Some (data 0) →
  d !! chunk_file "u1" 1 = Some (data 1) →
  chunks_stored "u1" session data d.
Proof.
  intros Hc H0 H1. split.
  - rewrite Hc. simpl. apply NoDup_cons. split.
    + rewrite elem_of_cons. intros [|Hnil]; [lia|by apply elem_of_nil in Hnil].
    + apply NoDup_singleton.
  - intros i p. rewrite Hc. rewrite !elem_of_cons.
    intros [[= -> ->]|[[= -> ->]|Hnil]]; [done|done|by apply elem_of_nil in Hnil].
Qed.

(** The destination of the examples: [static/uploads/temp/f1_a.pdf]. *)
Lemma plain_name_f1_a_pdf : plain_name "f1_a.pdf".
Proof. unfold plain_name. split_and!; try done. vm_compute. lia. Qed.

Lemma temp_destination_accepted session d :
  fileName session = "a.pdf" →
  projectId session = None →
  folderId session = None →
  temp_dir_free d →
  destination_accepted "f1" session d
  ∧ final_file_path_of "f1" session = ["static"; "uploads"; "temp"; "f1_a.pdf"].
Proof.
  intros Hname Hp Hf Hfree.
  destruct (temp_destination "f1" session d Hp Hf) as [Hacc Hpath]; [|done|].
  - rewrite Hname. apply plain_name_f1_a_pdf.
  - split; [done|]. by rewrite Hpath, Hname.
Qed.




(** C2, as stated, fails: "foo" and "ba" were received for a declared size of
    6; [complete_chunked_upload] reports the sizes 6 and 5, and the session,
    present before the call, is no longer in the registry after it. *)
Lemma C2_size_mismatch_counterexample :
  ∃ session st',
    upload_sessions short_state !! "u1" = Some session
    ∧ keys (chunks session) = [0; 1]
    ∧ totalChunks session = 2
    ∧ complete_chunked_upload "f1" demo_complete short_state
      = (Raise (HTTPException 500 (FailedToCompleteUpload (HTTPException 400
           (FileSizeMismatch 6 5)))), st')
    ∧ upload_sessions st' !! "u1" = None.
Proof.
  eexists _, _. split; [vm_compute; reflexivity|].
  split; [reflexivity|]. split; [reflexivity|].
  split; vm_compute; reflexivity.
Qed.

(** C2, amended. When a session has received every index, each chunk file
    holds its payload, the destination can be made (the file name and the
    project or folder id are plain names, no file stands at the directory or
    above it), and the payload lengths do not sum to [totalSize],
    [complete_chunked_upload] removes the file it assembled and fails with the
    size-mismatch error, which carries [totalSize] and the byte count found;
    the error reaches the caller as the cause of the handler's "Failed to
    complete upload". The handler's cleanup then removes the session from the
    registry. The chunk files have been consumed by the assembly, and no other
    file is touched. *)
Theorem C2_size_mismatch_discards_session file_id request st session data :
  upload_sessions st !! cq_uploadId request = Some session →
  fully_received session →
  chunks_stored (cq_uploadId request) session data (disk st) →
  total_length data (range (totalChunks session)) ≠ totalSize session →
  destination_accepted file_id session (disk st) →
  ∃ st',
    complete_chunked_upload file_id request st
    = (Raise (HTTPException 500 (FailedToCompleteUpload (HTTPException 400
         (FileSizeMismatch (totalSize session)
            (total_length data (range (totalChunks session))))))), st')
    ∧ disk st' !! final_file_path_of file_id session = None
    ∧ upload_sessions st' = delete (cq_uploadId request) (upload_sessions st)
    ∧ upload_sessions st' !! cq_uploadId request = None
    ∧ (∀ i, 0 ≤ i < totalChunks session →
         disk st' !! chunk_file (cq_uploadId request) i = None)
    ∧ (∀ q, q ≠ final_file_path_of file_id session →
         (∀ i, q ≠ chunk_file (cq_uploadId request) i) →
         disk st' !! q = disk st !! q).
Proof.
  intros Hs Hfull Hst Hsize Hacc.
  pose proof (complete_stored file_id request st session data Hs Hfull Hst Hacc)
    as Hrun.
  cbv zeta in Hrun. rewrite decide_True in Hrun by done.
  eexists. split; [exact Hrun|]. simpl.
  assert (Hval : ∀ q, q ∈ values (chunks session) ↔
            ∃ i, 0 ≤ i < totalChunks session ∧ q = chunk_file (cq_uploadId request) i).
  { intros q. rewrite (chunks_stored_values _ _ _ _ _ Hst).
    split; intros (i & Hi & ->); exists i; (split; [by apply Hfull|done]). }
  split_and!.
  - rewrite lookup_remove_all. case_decide; [done|]. apply lookup_delete_eq.
  - done.
  - apply lookup_delete_eq.
  - intros i Hi. apply remove_all_gone. apply Hval. by exists i.
  - intros q Hq Hqi. rewrite remove_all_other.
    + rewrite lookup_delete_ne by done. rewrite lookup_insert_ne by done.
      apply remove_all_other. intros Hin.
      apply list_elem_of_fmap in Hin as (i & -> & _). by apply (Hqi i).
    + intros Hin. apply Hval in Hin as (i & _ & ->). by apply (Hqi i).
Qed.

Lemma C2_size_mismatch_discards_session_witness :
  ∃ st',
    complete_chunked_upload "f1" demo_complete short_state
    = (Raise (HTTPException 500 (FailedToCompleteUpload (HTTPException 400
         (FileSizeMismatch 6 5)))), st')
    ∧ disk st' !! ["static"; "uploads"; "temp"; "f1_a.pdf"] = None
    ∧ upload_sessions st' !! "u1" = None.
Proof.
  destruct short_state_session as (session & Hs & Hn & Hsz & Hname & Hp & Hf & Hc).
  destruct (temp_destination_accepted session (disk short_state) Hname Hp Hf)
    as [Hacc Hpath]; [split_and!; vm_compute; reflexivity|].
  destruct (C2_size_mismatch_discards_session "f1" demo_complete short_state
              session short_data)
    as (st' & Hrun & Hfile & _ & Hgone & _).
  - exact Hs.
  - apply two_chunks_fully_received; [done|]. by rewrite Hc.
  - apply two_chunks_stored; [done|vm_compute; reflexivity|vm_compute; reflexivity].
  - rewrite Hn, Hsz. vm_compute. discriminate.
  - exact Hacc.
  - exists st'. split; [|split; [|exact Hgone]].
    + rewrite Hrun, Hn, Hsz. reflexivity.
    + rewrite <- Hpath. exact Hfile.
Defined.

(** ** The registry under sequences of calls *)

(** What each endpoint leaves in the stores. *)
Lemma run_upload uploadId chunkIndex chunk_data st :
  run (upload_chunk uploadId chunkIndex chunk_data) st
  = match upload_sessions st !! uploadId with
    | Some session =>
        if decide (0 ≤ chunkIndex < totalChunks session
                   ∧ chunkIndex ∉ keys (chunks session))
        then {| upload_sessions :=
                  <[uploadId := record_chunk session chunkIndex
                                  (chunk_file uploadId chunkIndex)]>
                    (upload_sessions st);
                disk := <[chunk_file uploadId chunkIndex := chunk_data]> (disk st) |}
        else st
    | None => st
    end.
Proof.
  unfold run.
  destruct (upload_chunk_cases uploadId chunkIndex st)
    as [Hs|(session & Hs & [Hi|[[Hi Hk]|[Hi Hk]]])]; rewrite Hs.
  - by rewrite upload_not_found.
  - rewrite (upload_bad_index _ _ _ _ session) by done.
    rewrite decide_False; [done|]. intros [? _]. lia.
  - rewrite (upload_resend _ _ _ _ session) by done.
    rewrite decide_False; [done|]. by intros [_ ?].
  - rewrite (upload_fresh _ _ _ _ session) by done.
    by rewrite decide_True.
Qed.

Lemma run_initialize upload_id t1 t2 request project_id folder_id st :
  run (initialize_chunked_upload upload_id t1 t2 request project_id folder_id) st = st
  ∨ ∃ session,
      chunks session = []
      ∧ run (initialize_chunked_upload upload_id t1 t2 request project_id folder_id) st
        = {| upload_sessions := <[upload_id := session]> (upload_sessions st);
             disk := disk st |}.
Proof.
  unfold run.
  destruct (decide (rq_chunkSize request = 0)) as [Hz|Hz].
  { left. by rewrite initialize_zero_chunk_size. }
  destruct (decide (rq_totalChunks request
      = (rq_totalSize request + rq_chunkSize request - 1) / rq_chunkSize request))
    as [He|He].
  - right. rewrite initialize_accepts by done. eexists. split; [|reflexivity]. done.
  - left. by rewrite initialize_rejects.
Qed.

Lemma run_status upload_id st : run (get_upload_status upload_id) st = st.
Proof.
  unfold run, get_upload_status, bind, get_sessions.
  destruct (upload_sessions st !! upload_id) as [session|]; [|done].
  unfold percent. by case_decide.
Qed.

Lemma run_cancel_sessions upload_id st :
  upload_sessions (run (cancel_chunked_upload upload_id) st) = upload_sessions st
  ∨ upload_sessions (run (cancel_chunked_upload upload_id) st)
    = delete upload_id (upload_sessions st).
Proof.
  unfold run. destruct (upload_sessions st !! upload_id) as [session|] eqn:Hs.
  - right. by rewrite (cancel_found _ _ session).
  - left. by rewrite cancel_not_found.
Qed.

Lemma run_complete_sessions file_id request st :
  upload_sessions (run (complete_chunked_upload file_id request) st)
    = upload_sessions st
  ∨ upload_sessions (run (complete_chunked_upload file_id request) st)
    = delete (cq_uploadId request) (upload_sessions st).
Proof.
  unfold run.
  destruct (upload_sessions st !! cq_uploadId request) as [session|] eqn:Hs.
  - right. destruct (fully_received_cases session) as [Hfull|Hfull].
    + rewrite (complete_full _ _ _ session) by done. cbv zeta.
      destruct (destination_error _ _ _); [done|].
      destruct (assemble _ _ _ _ _) as [[total|e] st1]; [|done].
      case_decide; [by destruct (disk st1 !! _)|].
      by destruct (under_static _).
    + by rewrite (complete_missing _ _ _ session).
  - left. by rewrite complete_not_found.
Qed.

(** Every call other than [upload_chunk] leaves each session it keeps as it
    was; a session it adds has no chunk recorded. *)
Lemma step_adds_no_key st op upload_id session :
  is_upload op = false →
  upload_sessions (step st op) !! upload_id = Some session →
  upload_sessions st !! upload_id = Some session ∨ chunks session = [].
Proof.
  intros Hop Hs. destruct op as [uid t1 t2 request pid fid|?|fid request|uid|uid];
    simpl in *; try discriminate.
  - destruct (run_initialize uid t1 t2 request pid fid st)
      as [Hrun|(new & Hnew & Hrun)]; rewrite Hrun in Hs.
    + by left.
    + simpl in Hs. destruct (decide (uid = upload_id)) as [->|Hne].
      * rewrite lookup_insert_eq in Hs. injection Hs as <-. by right.
      * rewrite lookup_insert_ne in Hs by done. by left.
  - destruct (run_complete_sessions fid request st) as [Hrun|Hrun];
      rewrite Hrun in Hs; [by left|].
    apply lookup_delete_Some in Hs as [_ Hs]. by left.
  - rewrite run_status in Hs. by left.
  - destruct (run_cancel_sessions uid st) as [Hrun|Hrun];
      rewrite Hrun in Hs; [by left|].
    apply lookup_delete_Some in Hs as [_ Hs]. by left.
Qed.

Lemma chunks_in_range_record session chunkIndex p :
  chunks_in_range session →
  0 ≤ chunkIndex < totalChunks session →
  chunkIndex ∉ keys (chunks session) →
  chunks_in_range (record_chunk session chunkIndex p).
Proof.
  intros [Hr Hnd] Hi Hk. unfold chunks_in_range. simpl.
  rewrite keys_dict_set_new by done. split.
  - intros i. rewrite elem_of_app, list_elem_of_singleton.
    intros [Hin| ->]; [by apply Hr|done].
  - apply NoDup_app. split_and!; [done| |apply NoDup_singleton].
    intros i Hin. rewrite list_elem_of_singleton. by intros ->.
Qed.

Lemma step_in_range st op :
  registry_in_range st → registry_in_range (step st op).
Proof.
  intros Hinv upload_id session Hs.
  destruct (is_upload op) eqn:Hop.
  - destruct op as [|uid i data| | |]; try discriminate. simpl in Hs.
    rewrite run_upload in Hs.
    destruct (upload_sessions st !! uid) as [old|] eqn:Hold; [|by eapply Hinv].
    case_decide as Hfresh; [|by eapply Hinv]. simpl in Hs.
    destruct Hfresh as [Hi Hk].
    destruct (decide (uid = upload_id)) as [->|Hne].
    + rewrite lookup_insert_eq in Hs. injection Hs as <-.
      apply chunks_in_range_record; [by eapply Hinv|done|done].
    + rewrite lookup_insert_ne in Hs by done. by eapply Hinv.
  - destruct (step_adds_no_key _ _ _ _ Hop Hs) as [Hold|Hnil].
    + by eapply Hinv.
    + unfold chunks_in_range. rewrite Hnil. simpl. split.
      * intros i Hin. by apply elem_of_nil in Hin.
      * apply NoDup_nil_2.
Qed.

Lemma run_ops_in_range ops st :
  registry_in_range st → registry_in_range (run_ops ops st).
Proof.
  revert st. induction ops as [|op ops IH]; intros st Hinv; [done|].
  simpl. apply IH. by apply step_in_range.
Qed.

Lemma empty_state_in_range : registry_in_range empty_state.
Proof. intros upload_id session Hs. simpl in Hs. by rewrite lookup_empty in Hs. Qed.

Lemma chunks_in_range_length session :
  chunks_in_range session →
  (length (chunks session) ≤ Z.to_nat (totalChunks session))%nat.
Proof.
  intros [Hr Hnd].
  replace (length (chunks session)) with (length (keys (chunks session)))
    by (unfold keys; apply length_fmap).
  rewrite <- (length_seqZ 0 (totalChunks session)).
  apply submseteq_length. apply NoDup_submseteq; [done|].
  intros i Hi. apply elem_of_seqZ. apply Hr in Hi. lia.
Qed.

(** C8, as stated, fails on its count: [initialize_chunked_upload] checks
    the chunk count against the size and not its sign, so it accepts a
    request of size -250 in chunks of 100 with [totalChunks = -2]. The
    session it creates records no chunk, and 0 is more than -2. *)
Lemma C8_negative_total_counterexample :
  ∃ session,
    upload_sessions
      (run_ops [OpInit "u1" 10 11 negative_request None None] empty_state)
      !! "u1" = Some session
    ∧ totalChunks session = -2
    ∧ chunks session = []
    ∧ ¬ (Z.of_nat (length (chunks session)) ≤ totalChunks session).
Proof.
  eexists. split; [vm_compute; reflexivity|].
  split; [reflexivity|]. split; [reflexivity|]. simpl. lia.
Qed.

(** C8, amended. Over every sequence of calls, from the empty registry or
    from any registry whose sessions record indices of [[0, totalChunks)]
    only, each session records indices of [[0, totalChunks)] only, each index
    once, so at most as many as [[0, totalChunks)] has: [totalChunks] when
    that is not negative, and none when it is. [upload_chunk] rejects an index
    outside [[0, totalChunks)] with the invalid-chunk-index error and changes
    nothing. No other call adds a key to a session: a session found after such
    a call was there before, unchanged, or is new and has no chunk recorded. *)
Theorem C8_received_indices_in_range :
  (∀ st ops upload_id session,
     registry_in_range st →
     upload_sessions (run_ops ops st) !! upload_id = Some session →
     (∀ i, i ∈ keys (chunks session) → 0 ≤ i < totalChunks session)
     ∧ NoDup (keys (chunks session))
     ∧ (length (chunks session) ≤ Z.to_nat (totalChunks session))%nat
     ∧ (0 ≤ totalChunks session →
        Z.of_nat (length (chunks session)) ≤ totalChunks session))
  ∧ registry_in_range empty_state
  ∧ (∀ st uploadId chunkIndex chunk_data session,
       upload_sessions st !! uploadId = Some session →
       chunkIndex < 0 ∨ chunkIndex >= totalChunks session →
       upload_chunk uploadId chunkIndex chunk_data st
       = (Raise (HTTPException 500 (FailedToUploadChunk (HTTPException 400
            (InvalidChunkIndex chunkIndex (totalChunks session - 1))))), st))
  ∧ (∀ st op upload_id session,
       is_upload op = false →
       upload_sessions (step st op) !! upload_id = Some session →
       upload_sessions st !! upload_id = Some session ∨ chunks session = []).
Proof.
  split_and!.
  - intros st ops upload_id session Hinv Hs.
    pose proof (run_ops_in_range ops st Hinv upload_id session Hs) as Hr.
    pose proof (chunks_in_range_length session Hr) as Hlen.
    destruct Hr as [Hr Hnd]. split_and!; try done. lia.
  - apply empty_state_in_range.
  - intros st uploadId chunkIndex chunk_data session Hs Hi.
    by apply upload_bad_index.
  - apply step_adds_no_key.
Qed.

(** A run with a rejected index: after creating a two-chunk session, sending
    chunk 5 and then chunk 0, the session records index 0 only. *)
Lemma C8_received_indices_in_range_witness :
  ∃ session,
    upload_sessions
      (run_ops [OpInit "u1" 10 11 demo_request None None;
                OpUpload "u1" 5 (b "xyz");
                OpUpload "u1" 0 (b "foo")] empty_state) !! "u1" = Some session
    ∧ keys (chunks session) = [0]
    ∧ (∀ i, i ∈ keys (chunks session) → 0 ≤ i < totalChunks session)
    ∧ (length (chunks session) ≤ Z.to_nat (totalChunks session))%nat.
Proof.
  eexists. split; [vm_compute; reflexivity|]. split; [reflexivity|].
  match goal with
  | |- context [chunks ?s] =>
      destruct (proj1 C8_received_indices_in_range empty_state
                  [OpInit "u1" 10 11 demo_request None None;
                   OpUpload "u1" 5 (b "xyz");
                   OpUpload "u1" 0 (b "foo")] "u1" s)
        as (Hr & _ & Hlen & _)
  end.
  - apply empty_state_in_range.
  - vm_compute. reflexivity.
  - split; [exact Hr|exact Hlen].
Defined.

(** ** Order of arrival *)

Lemma set_chunks_chunks session : set_chunks (chunks session) session = session.
Proof. by destruct session. Qed.

Lemma set_chunks_set_chunks c1 c2 session :
  set_chunks c1 (set_chunks c2 session) = set_chunks c1 session.
Proof. reflexivity. Qed.









Section arrival_order.
Context (upload_id : string).








Lemma ingest_all_cons data i order st :
  ingest_all upload_id data (i :: order) st
  = ingest_all upload_id data order (run (upload_chunk upload_id i (data i)) st).
Proof. reflexivity. Qed.






(** Ingestion keeps every recorded chunk in its file. *)
Lemma keys_snoc (d : ChunkDict) k v : keys (d ++ [(k, v)]) = keys d ++ [k].
Proof. unfold keys. by rewrite fmap_app. Qed.

Lemma upload_stored data i st session :
  upload_sessions st !! upload_id = Some session →
  chunks_stored upload_id session data (disk st) →
  let st' := run (upload_chunk upload_id i (data i)) st in
  ∃ session',
    upload_sessions st' !! upload_id = Some session'
    ∧ session' = set_chunks (chunks session') session
    ∧ chunks_stored upload_id session' data (disk st')
    ∧ (∀ k, k ∈ keys (chunks session') ↔
         k ∈ keys (chunks session) ∨ (k = i ∧ 0 ≤ k < totalChunks session)).
Proof.
  intros Hs [Hnd Hst] st'. subst st'. rewrite run_upload, Hs.
  case_decide as Hfresh.
  - destruct Hfresh as [Hi Hk].
    exists (record_chunk session i (chunk_file upload_id i)).
    assert (Hc : chunks (record_chunk session i (chunk_file upload_id i))
                 = chunks session ++ [(i, chunk_file upload_id i)])
      by (by apply dict_set_new).
    split_and!.
    + apply lookup_insert_eq.
    + reflexivity.
    + split.
      * rewrite Hc, keys_snoc. apply NoDup_app.
        split_and!; [done| |apply NoDup_singleton].
        intros k Hin. rewrite list_elem_of_singleton. by intros ->.
      * intros k p. rewrite Hc. cbn [disk].
        rewrite elem_of_app, list_elem_of_singleton.
        intros [Hin|[= -> ->]].
        -- destruct (Hst _ _ Hin) as [-> Hd]. split; [done|].
           rewrite lookup_insert_ne; [done|].
           intros Heq. apply chunk_file_inj in Heq. subst k.
           apply Hk. apply list_elem_of_fmap. by exists (i, chunk_file upload_id i).
        -- split; [done|]. apply lookup_insert_eq.
    + intros k. rewrite Hc, keys_snoc.
      rewrite elem_of_app, list_elem_of_singleton.
      split; [intros [| ->]; [by left|by right]|].
      intros [|[-> _]]; [by left|by right].
  - exists session. split_and!; [done|by rewrite set_chunks_chunks|done|].
    intros k. split; [by left|]. intros [|[-> Hi]]; [done|].
    destruct (decide (i ∈ keys (chunks session))); [done|].
    exfalso. by apply Hfresh.
Qed.

Lemma ingest_stored data order :
  ∀ st session,
    upload_sessions st !! upload_id = Some session →
    chunks_stored upload_id session data (disk st) →
    let st' := ingest_all upload_id data order st in
    ∃ session',
      upload_sessions st' !! upload_id = Some session'
      ∧ session' = set_chunks (chunks session') session
      ∧ chunks_stored upload_id session' data (disk st')
      ∧ (∀ k, k ∈ keys (chunks session') ↔
           k ∈ keys (chunks session) ∨ (k ∈ order ∧ 0 ≤ k < totalChunks session)).
Proof.
  induction order as [|i order IH]; intros st session Hs Hst; cbv zeta.
  - exists session. split_and!; [done|by rewrite set_chunks_chunks|done|].
    intros k. split; [by left|]. intros [|[Hnil _]]; [done|].
    by apply elem_of_nil in Hnil.
  - rewrite ingest_all_cons.
    destruct (upload_stored data i st session Hs Hst)
      as (s1 & Hs1 & Hf1 & Hst1 & Hk1).
    destruct (IH _ s1 Hs1 Hst1) as (s2 & Hs2 & Hf2 & Hst2 & Hk2).
    exists s2. split_and!; [done| |done|].
    + rewrite Hf2 at 1. rewrite Hf1. apply set_chunks_set_chunks.
    + intros k. rewrite Hk2, Hk1. rewrite Hf1. simpl. rewrite elem_of_cons.
      split.
      * intros [[|[-> ?]]|[? ?]]; [by left|right|right]; split; auto.
      * intros [|[[->|?] ?]]; [by left; left|left; right|right]; split; auto.
Qed.

End arrival_order.




(** * Further properties of the endpoints *)

(** ** [initialize_chunked_upload] on all integers *)

(** The sizes of a request are not checked for sign: on all integers,
    [initialize_chunked_upload] succeeds exactly when [chunkSize] is not zero
    and [totalChunks] is the floor quotient the function computes. A zero
    [chunkSize] fails with [ZeroDivisionError] as the cause, not with the
    chunk-count error, and every failing call leaves both stores as they
    were. *)
Theorem initialize_success_iff upload_id t1 t2 request project_id folder_id st :
  let r := initialize_chunked_upload upload_id t1 t2 request project_id folder_id st in
  ((∃ response st', r = (Ok response, st'))
     ↔ rq_chunkSize request ≠ 0
       ∧ rq_totalChunks request
         = (rq_totalSize request + rq_chunkSize request - 1) / rq_chunkSize request)
  ∧ (rq_chunkSize request = 0 →
       r = (Raise (HTTPException 500 (FailedToInitializeUpload ZeroDivisionError)), st))
  ∧ (∀ e st', r = (Raise e, st') → st' = st).
Proof.
  intros r. subst r.
  destruct (decide (rq_chunkSize request = 0)) as [Hz|Hz].
  { rewrite initialize_zero_chunk_size by done. split_and!.
    - split; [intros (? & ? & [=])|intros [? _]; done].
    - done.
    - by intros e st' [= _ <-]. }
  destruct (decide (rq_totalChunks request
      = (rq_totalSize request + rq_chunkSize request - 1) / rq_chunkSize request))
    as [He|He].
  - rewrite initialize_accepts by done. split_and!.
    + split; [done|]. intros _. eauto.
    + done.
    + intros e st' [=].
  - rewrite initialize_rejects by done. split_and!.
    + split; [intros (? & ? & [=])|intros [_ ?]; done].
    + done.
    + by intros e st' [= _ <-].
Qed.

Lemma initialize_success_iff_witness :
  initialize_chunked_upload "u1" 10 11
    {| rq_fileName := "a.pdf"; rq_totalSize := 6; rq_chunkSize := 0;
       rq_totalChunks := 2; rq_fileType := None |} None None demo_state
  = (Raise (HTTPException 500 (FailedToInitializeUpload ZeroDivisionError)),
     demo_state).
Proof.
  apply (proj1 (proj2 (initialize_success_iff "u1" 10 11
           {| rq_fileName := "a.pdf"; rq_totalSize := 6; rq_chunkSize := 0;
              rq_totalChunks := 2; rq_fileType := None |} None None demo_state))).
  reflexivity.
Defined.

(** The effect of an accepted request. *)
Lemma initialize_ok_effect
    upload_id t1 t2 request project_id folder_id st response st' :
  initialize_chunked_upload upload_id t1 t2 request project_id folder_id st
    = (Ok response, st') →
  disk st' = disk st
  ∧ (∀ other, other ≠ upload_id →
       upload_sessions st' !! other = upload_sessions st !! other)
  ∧ (∃ session,
       upload_sessions st' !! upload_id = Some session
       ∧ uploadId session = upload_id
       ∧ fileName session = rq_fileName request
       ∧ totalSize session = rq_totalSize request
       ∧ chunkSize session = rq_chunkSize request
       ∧ totalChunks session = rq_totalChunks request
       ∧ fileType session = rq_fileType request
       ∧ projectId session = project_id
       ∧ folderId session = folder_id
       ∧ chunks session = []
       ∧ status session = "initialized")
  ∧ ir_uploadId response = upload_id
  ∧ ir_chunkSize response = rq_chunkSize request
  ∧ ir_totalChunks response = rq_totalChunks request.
Proof.
  intros Hrun.
  destruct (decide (rq_chunkSize request = 0)) as [Hz|Hz].
  { rewrite initialize_zero_chunk_size in Hrun by done. discriminate. }
  destruct (decide (rq_totalChunks request
      = (rq_totalSize request + rq_chunkSize request - 1) / rq_chunkSize request))
    as [He|He].
  2:{ rewrite initialize_rejects in Hrun by done. discriminate. }
  rewrite initialize_accepts in Hrun by done. injection Hrun as <- <-.
  simpl. split_and!; try done.
  - intros other Hne. by apply lookup_insert_ne.
  - eexists. split; [apply lookup_insert_eq|]. simpl. split_and!; done.
Qed.

(** A successful [initialize_chunked_upload] writes nothing to the disk and
    touches no session but the one under the new id. That session carries the
    fields of the request and the scope passed in, has no chunk recorded and
    the status "initialized"; a session that was registered under the same id
    is replaced. The response returns the id and echoes [chunkSize] and
    [totalChunks]. *)
Theorem initialize_creates_empty_session
    upload_id t1 t2 request project_id folder_id st response st' :
  initialize_chunked_upload upload_id t1 t2 request project_id folder_id st
    = (Ok response, st') →
  disk st' = disk st
  ∧ (∀ other, other ≠ upload_id →
       upload_sessions st' !! other = upload_sessions st !! other)
  ∧ (∃ session,
       upload_sessions st' !! upload_id = Some session
       ∧ uploadId session = upload_id
       ∧ fileName session = rq_fileName request
       ∧ totalSize session = rq_totalSize request
       ∧ chunkSize session = rq_chunkSize request
       ∧ totalChunks session = rq_totalChunks request
       ∧ fileType session = rq_fileType request
       ∧ projectId session = project_id
       ∧ folderId session = folder_id
       ∧ chunks session = []
       ∧ status session = "initialized")
  ∧ ir_uploadId response = upload_id
  ∧ ir_chunkSize response = rq_chunkSize request
  ∧ ir_totalChunks response = rq_totalChunks request.
Proof.
  intros Hrun.
  destruct (decide (rq_chunkSize request = 0)) as [Hz|Hz].
  { rewrite initialize_zero_chunk_size in Hrun by done. discriminate. }
  destruct (decide (rq_totalChunks request
      = (rq_totalSize request + rq_chunkSize request - 1) / rq_chunkSize request))
    as [He|He].
  2:{ rewrite initialize_rejects in Hrun by done. discriminate. }
  rewrite initialize_accepts in Hrun by done. injection Hrun as <- <-.
  simpl. split_and!; try done.
  - intros other Hne. by apply lookup_insert_ne.
  - eexists. split; [apply lookup_insert_eq|]. simpl. split_and!; done.
Qed.

Lemma initialize_creates_empty_session_witness :
  ∃ session,
    upload_sessions
      (run (initialize_chunked_upload "u2" 10 11 demo_request (Some "p1") None)
         demo_state) !! "u2" = Some session
    ∧ projectId session = Some "p1"
    ∧ chunks session = []
    ∧ upload_sessions
        (run (initialize_chunked_upload "u2" 10 11 demo_request (Some "p1") None)
           demo_state) !! "u1"
      = upload_sessions demo_state !! "u1".
Proof.
  destruct (initialize_creates_empty_session "u2" 10 11 demo_request (Some "p1")
              None demo_state
              {| ir_uploadId := "u2"; ir_chunkSize := 3; ir_totalChunks := 2;
                 ir_expiresAt := 11 |}
              (run (initialize_chunked_upload "u2" 10 11 demo_request (Some "p1") None)
                 demo_state))
    as (_ & Hother & (session & Hs & _ & _ & _ & _ & _ & _ & Hp & _ & Hc & _) & _).
  - vm_compute. reflexivity.
  - exists session. split_and!; [done|done|done|]. by apply Hother.
Defined.

(** An upload of zero bytes. For every positive [chunkSize], a request with
    [totalSize = 0] and [totalChunks = 0] is accepted. On the session it
    creates, [get_upload_status] raises [ZeroDivisionError], and
    [complete_chunked_upload], when the file name is a plain name and no file
    stands at [static/uploads/temp] or above it, succeeds at once: it reports
    size 0, leaves an empty file at the destination and removes the
    session. *)
Theorem zero_byte_upload upload_id t1 t2 file_name file_type chunk_size file_id
    request st :
  0 < chunk_size →
  cq_uploadId request = upload_id →
  plain_name (file_id +:+ "_" +:+ file_name) →
  temp_dir_free (disk st) →
  let init_request :=
    {| rq_fileName := file_name; rq_totalSize := 0; rq_chunkSize := chunk_size;
       rq_totalChunks := 0; rq_fileType := file_type |} in
  ∃ response session st1,
    initialize_chunked_upload upload_id t1 t2 init_request None None st
      = (Ok response, st1)
    ∧ upload_sessions st1 !! upload_id = Some session
    ∧ get_upload_status upload_id st1 = (Raise ZeroDivisionError, st1)
    ∧ ∃ st2,
        complete_chunked_upload file_id request st1
          = (Ok (complete_response file_id session 0), st2)
        ∧ disk st2 !! ["static"; "uploads"; "temp"; file_id +:+ "_" +:+ file_name]
          = Some []
        ∧ upload_sessions st2 !! upload_id = None.
Proof.
  intros Hc <- Hname Hfree init_request.
  rewrite initialize_accepts;
    [|simpl; lia|simpl; symmetry; apply Z.div_small; lia].
  eexists _, _, _. split; [reflexivity|].
  split; [apply lookup_insert_eq|]. split.
  - unfold get_upload_status, bind, get_sessions. simpl.
    rewrite lookup_insert_eq. reflexivity.
  - set (session := {| uploadId := cq_uploadId request; fileName := file_name;
                       totalSize := 0; chunkSize := chunk_size; totalChunks := 0;
                       fileType := file_type; projectId := None; folderId := None;
                       chunks := []; createdAt := t1; expiresAt := t2;
                       status := "initialized" |}).
    set (st1 := {| upload_sessions := <[cq_uploadId request := session]> (upload_sessions st);
                   disk := disk st |}).
    assert (Hs : upload_sessions st1 !! cq_uploadId request = Some session)
      by apply lookup_insert_eq.
    assert (Hfull : fully_received session).
    { intros i. simpl. split; [intros Hin; by apply elem_of_nil in Hin|lia]. }
    assert (Hst : chunks_stored (cq_uploadId request) session (λ _, []) (disk st1)).
    { split; simpl; [apply NoDup_nil_2|]. intros i p Hin. by apply elem_of_nil in Hin. }
    destruct (temp_destination file_id session (disk st1) eq_refl eq_refl Hname Hfree)
      as [Hacc Hpath].
    pose proof (complete_stored file_id request st1 session (λ _, []) Hs Hfull Hst Hacc)
      as Hrun.
    cbv zeta in Hrun. rewrite decide_False in Hrun by (intros Hne; by apply Hne).
    eexists. split; [exact Hrun|]. split.
    + change (file_id +:+ "_" +:+ file_name)
        with (file_id +:+ "_" +:+ fileName session).
      rewrite <- Hpath. apply lookup_insert_eq.
    + apply lookup_delete_eq.
Qed.

Lemma zero_byte_upload_witness :
  ∃ response st1 st2,
    initialize_chunked_upload "u1" 10 11
      {| rq_fileName := "empty.pdf"; rq_totalSize := 0; rq_chunkSize := 100;
         rq_totalChunks := 0; rq_fileType := None |} None None empty_state
      = (Ok response, st1)
    ∧ get_upload_status "u1" st1 = (Raise ZeroDivisionError, st1)
    ∧ (complete_chunked_upload "f1" demo_complete st1).2 = st2
    ∧ disk st2 !! ["static"; "uploads"; "temp"; "f1_empty.pdf"] = Some [].
Proof.
  destruct (zero_byte_upload "u1" 10 11 "empty.pdf" None 100 "f1" demo_complete
              empty_state)
    as (response & session & st1 & Hinit & _ & Hstatus & st2 & Hrun & Hfile & _).
  - lia.
  - reflexivity.
  - unfold plain_name. split_and!; try done. vm_compute. lia.
  - done.
  - exists response, st1, st2. split_and!; [done|done|by rewrite Hrun|done].
Defined.

(** ** [upload_chunk]: failures and frame *)



(** A successful [upload_chunk] changes at most one file, the chunk file of
    its upload id and index, and at most one session, its own; of that session
    it changes the chunk dictionary only, which keeps its entries in their
    order and gains at most the new one, at the end. The payload is stored
    whatever its length. *)
Theorem upload_success_frame uploadId chunkIndex chunk_data st r st' :
  upload_chunk uploadId chunkIndex chunk_data st = (Ok r, st') →
  (∀ q, q ≠ chunk_file uploadId chunkIndex → disk st' !! q = disk st !! q)
  ∧ (∀ other, other ≠ uploadId →
       upload_sessions st' !! other = upload_sessions st !! other)
  ∧ ∃ session session',
      upload_sessions st !! uploadId = Some session
      ∧ upload_sessions st' !! uploadId = Some session'
      ∧ session' = set_chunks (chunks session') session
      ∧ (chunks session' = chunks session
         ∨ (chunks session'
              = chunks session ++ [(chunkIndex, chunk_file uploadId chunkIndex)]
            ∧ disk st' !! chunk_file uploadId chunkIndex = Some chunk_data)).
Proof.
  intros Hrun.
  destruct (upload_chunk_cases uploadId chunkIndex st)
    as [Hs|(session & Hs & [Hi|[[Hi Hk]|[Hi Hk]]])].
  - rewrite upload_not_found in Hrun by done. discriminate.
  - rewrite (upload_bad_index _ _ _ _ session) in Hrun by done. discriminate.
  - rewrite (upload_resend _ _ _ _ session) in Hrun by done.
    injection Hrun as <- <-. split_and!; [done|done|].
    exists session, session. split_and!; [done|done| |by left].
    by rewrite set_chunks_chunks.
  - rewrite (upload_fresh _ _ _ _ session) in Hrun by done.
    injection Hrun as <- <-. simpl. split_and!.
    + intros q Hq. by rewrite lookup_insert_ne.
    + intros other Hne. by rewrite lookup_insert_ne.
    + exists session, (record_chunk session chunkIndex (chunk_file uploadId chunkIndex)).
      split_and!; [done|apply lookup_insert_eq|reflexivity|].
      right. split; [by apply dict_set_new|apply lookup_insert_eq].
Qed.

Lemma upload_success_frame_witness :
  ∃ session',
    upload_sessions (run (upload_chunk "u1" 1 (b "bar"))
                       (run (upload_chunk "u1" 0 (b "foo"))
                          (run (initialize_chunked_upload "u1" 10 11 demo_request
                                  None None) empty_state))) !! "u1"
    = Some session'
    ∧ chunks session' = [(0, chunk_file "u1" 0); (1, chunk_file "u1" 1)].
Proof.
  set (st := run (upload_chunk "u1" 0 (b "foo"))
               (run (initialize_chunked_upload "u1" 10 11 demo_request None None)
                  empty_state)).
  destruct (upload_success_frame "u1" 1 (b "bar") st
              {| uc_success := true; uc_chunkIndex := Some 1;
                 uc_chunkSize := Some 3; uc_message := UploadedSuccessfully 1 |}
              (run (upload_chunk "u1" 1 (b "bar")) st))
    as (_ & _ & session & session' & Hs & Hs' & _ & Hc).
  - vm_compute. reflexivity.
  - exists session'. split; [exact Hs'|].
    assert (Hold : chunks session = [(0, chunk_file "u1" 0)]).
    { vm_compute in Hs. injection Hs as <-. reflexivity. }
    destruct Hc as [Hc|[Hc _]]; rewrite Hc, Hold; [|reflexivity].
    exfalso. vm_compute in Hs'. injection Hs' as <-.
    rewrite Hold in Hc. vm_compute in Hc. discriminate.
Defined.

(** ** An unknown upload id *)

(** All four endpoints that take an upload id fail on an id that is not
    registered, and leave both stores as they were. [get_upload_status] and
    [cancel_chunked_upload] raise the 404 itself; in [upload_chunk] and
    [complete_chunked_upload] the 404 is caught by the handler and becomes the
    cause of a 500. *)
Theorem unknown_upload_id upload_id st :
  upload_sessions st !! upload_id = None →
  (∀ chunkIndex chunk_data,
     upload_chunk upload_id chunkIndex chunk_data st
     = (Raise (HTTPException 500 (FailedToUploadChunk
          (HTTPException 404 UploadSessionNotFound))), st))
  ∧ (∀ file_id request,
       cq_uploadId request = upload_id →
       complete_chunked_upload file_id request st
       = (Raise (HTTPException 500 (FailedToCompleteUpload
            (HTTPException 404 UploadSessionNotFound))), st))
  ∧ get_upload_status upload_id st
    = (Raise (HTTPException 404 UploadSessionNotFound), st)
  ∧ cancel_chunked_upload upload_id st
    = (Raise (HTTPException 404 UploadSessionNotFound), st).
Proof.
  intros Hs. split_and!.
  - intros chunkIndex chunk_data. by apply upload_not_found.
  - intros file_id request <-. by apply complete_not_found.
  - by apply status_not_found.
  - by apply cancel_not_found.
Qed.

Lemma unknown_upload_id_witness :
  cancel_chunked_upload "nobody" demo_state
  = (Raise (HTTPException 404 UploadSessionNotFound), demo_state)
  ∧ upload_chunk "nobody" 0 (b "foo") demo_state
    = (Raise (HTTPException 500 (FailedToUploadChunk
         (HTTPException 404 UploadSessionNotFound))), demo_state).
Proof.
  destruct (unknown_upload_id "nobody" demo_state) as (Hup & _ & _ & Hcancel).
  - vm_compute. reflexivity.
  - split; [exact Hcancel|apply Hup].
Defined.

(** ** [complete_chunked_upload]: what every call does *)



(** Whatever a call on a registered session returns, the session is gone
    afterwards and the other sessions are as before. *)
Lemma complete_found_sessions file_id request st session :
  upload_sessions st !! cq_uploadId request = Some session →
  upload_sessions (complete_chunked_upload file_id request st).2
  = delete (cq_uploadId request) (upload_sessions st).
Proof.
  intros Hs. destruct (fully_received_cases session) as [Hfull|Hfull].
  - rewrite (complete_full _ _ _ session) by done. cbv zeta.
    destruct (destination_error _ _ _); [done|].
    destruct (assemble _ _ _ _ _) as [[total|e] st1]; [|done].
    case_decide; [by destruct (disk st1 !! _)|].
    by destruct (under_static _).
  - by rewrite (complete_missing _ _ _ session).
Qed.

(** [complete_chunked_upload] ends the session on every path. Whether the call
    on a registered session succeeds or fails, the session is removed and no
    other session is touched; a second [complete_chunked_upload], an
    [upload_chunk], a [get_upload_status] or a [cancel_chunked_upload] on the
    same id then fails with "Upload session not found". *)
Theorem complete_is_terminal file_id request st session :
  upload_sessions st !! cq_uploadId request = Some session →
  let st' := (complete_chunked_upload file_id request st).2 in
  upload_sessions st' = delete (cq_uploadId request) (upload_sessions st)
  ∧ (∀ file_id', complete_chunked_upload file_id' request st'
       = (Raise (HTTPException 500 (FailedToCompleteUpload
            (HTTPException 404 UploadSessionNotFound))), st'))
  ∧ (∀ chunkIndex chunk_data,
       upload_chunk (cq_uploadId request) chunkIndex chunk_data st'
       = (Raise (HTTPException 500 (FailedToUploadChunk
            (HTTPException 404 UploadSessionNotFound))), st'))
  ∧ get_upload_status (cq_uploadId request) st'
    = (Raise (HTTPException 404 UploadSessionNotFound), st')
  ∧ cancel_chunked_upload (cq_uploadId request) st'
    = (Raise (HTTPException 404 UploadSessionNotFound), st').
Proof.
  intros Hs st'.
  assert (Hreg : upload_sessions st'
                 = delete (cq_uploadId request) (upload_sessions st))
    by (by apply complete_found_sessions with session).
  assert (Hgone : upload_sessions st' !! cq_uploadId request = None)
    by (rewrite Hreg; apply lookup_delete_eq).
  split; [done|]. split_and!.
  - intros file_id'. by apply complete_not_found.
  - intros chunkIndex chunk_data. by apply upload_not_found.
  - by apply status_not_found.
  - by apply cancel_not_found.
Qed.

Lemma complete_is_terminal_witness :
  complete_chunked_upload "f2" demo_complete
    (complete_chunked_upload "f1" demo_complete demo_state).2
  = (Raise (HTTPException 500 (FailedToCompleteUpload
       (HTTPException 404 UploadSessionNotFound))),
     (complete_chunked_upload "f1" demo_complete demo_state).2).
Proof.
  destruct demo_state_session as (session & Hs & _).
  exact (proj1 (proj2 (complete_is_terminal "f1" demo_complete demo_state session Hs))
           "f2").
Defined.





(** ** A chunk file that is gone *)

Lemma assemble_app session final indices1 indices2 total st :
  assemble session final (indices1 ++ indices2) total st
  = match assemble session final indices1 total st with
    | (Ok total1, st1) => assemble session final indices2 total1 st1
    | (Raise e, st1) => (Raise e, st1)
    end.
Proof.
  revert total st. induction indices1 as [|i indices1 IH]; intros total st; [done|].
  simpl. unfold bind, dict_get.
  destruct (dict_lookup i (chunks session)) as [p|]; [|done].
  unfold ret, read_file. destruct (disk st !! p) as [data|]; [|done].
  unfold write. rewrite try_unlink. apply IH.
Qed.

Lemma range_split k n :
  0 ≤ k < n → range n = range k ++ k :: seqZ (k + 1) (n - k - 1).
Proof.
  intros Hk. unfold range.
  replace n with (k + (n - k)) at 1 by lia.
  rewrite seqZ_app by lia. rewrite (seqZ_cons (0 + k)) by lia.
  rewrite Z.add_0_l.
  replace (Z.succ k) with (k + 1) by lia.
  by replace (Z.pred (n - k)) with (n - k - 1) by lia.
Qed.

(** When the destination can be made and the file of a recorded chunk is no
    longer on the disk, [complete_chunked_upload] fails at the first such
    chunk with [FileNotFoundError] as the cause. The handler's cleanup removes the
    session and the remaining chunk files, but not the file being assembled:
    it stays at the destination, holding the chunks that precede the missing
    one. *)
Theorem complete_leaves_partial_file file_id request st session data k :
  upload_sessions st !! cq_uploadId request = Some session →
  fully_received session →
  NoDup (keys (chunks session)) →
  (∀ i p, (i, p) ∈ chunks session → p = chunk_file (cq_uploadId request) i) →
  0 ≤ k < totalChunks session →
  (∀ i, 0 ≤ i < k → disk st !! chunk_file (cq_uploadId request) i = Some (data i)) →
  disk st !! chunk_file (cq_uploadId request) k = None →
  destination_accepted file_id session (disk st) →
  ∃ st',
    complete_chunked_upload file_id request st
    = (Raise (HTTPException 500 (FailedToCompleteUpload
         (FileNotFoundError (chunk_file (cq_uploadId request) k)))), st')
    ∧ disk st' !! final_file_path_of file_id session
      = Some (concat_chunks data (range k))
    ∧ upload_sessions st' !! cq_uploadId request = None
    ∧ (∀ i, 0 ≤ i < totalChunks session →
         disk st' !! chunk_file (cq_uploadId request) i = None).
Proof.
  intros Hs Hfull Hnd Hpaths Hk Hfiles Hgone Hacc.
  set (uid := cq_uploadId request) in *.
  set (final := final_file_path_of file_id session).
  assert (Hrec : ∀ i, 0 ≤ i < totalChunks session →
            (i, chunk_file uid i) ∈ chunks session).
  { intros i Hi. apply Hfull in Hi.
    apply list_elem_of_fmap in Hi as ([j p] & -> & Hin).
    simpl. by rewrite <- (Hpaths _ _ Hin). }
  assert (Hfinal : ∀ i, final ≠ chunk_file uid i)
    by (intros i; apply final_file_is_no_chunk_file).
  assert (Hvalues : ∀ q, q ∈ values (chunks session) → ∃ i, q = chunk_file uid i).
  { intros q Hq. apply list_elem_of_fmap in Hq as ([i p] & -> & Hin).
    exists i. by apply Hpaths. }
  rewrite (complete_full_accepted _ _ _ session) by done. cbv zeta.
  fold final.
  rewrite sorted_keys_full by done.
  rewrite (range_split k) by done. rewrite assemble_app.
  rewrite (assemble_stored uid session final data (range k) 0 []).
  - simpl. unfold bind, dict_get.
    rewrite (proj2 (dict_lookup_Some _ _ _ Hnd) (Hrec k Hk)).
    unfold ret, read_file. simpl.
    rewrite lookup_insert_ne by done.
    assert (Hk' : remove_all (chunk_file uid <$> range k)
                    (<[final := []]> (disk st)) !! chunk_file uid k = None).
    { rewrite lookup_remove_all. case_decide; [done|].
      rewrite lookup_insert_ne by done. done. }
    rewrite Hk'. eexists. split; [reflexivity|]. simpl. split_and!.
    + rewrite remove_all_other.
      * by rewrite lookup_insert_eq.
      * intros Hin. apply Hvalues in Hin as [i Hi]. by apply (Hfinal i).
    + apply lookup_delete_eq.
    + intros i Hi. apply remove_all_gone.
      apply list_elem_of_fmap. exists (i, chunk_file uid i). split; [done|].
      by apply Hrec.
  - done.
  - apply NoDup_seqZ.
  - intros i Hi. apply elem_of_range in Hi. split.
    + apply Hrec. lia.
    + simpl. rewrite lookup_insert_ne by done. by apply Hfiles.
  - done.
  - simpl. apply lookup_insert_eq.
Qed.

(** In the two-chunk example the file of chunk 1 was removed behind the
    registry's back: the assembled file keeps "foo". *)
Lemma complete_leaves_partial_file_witness :
  let st := {| upload_sessions := upload_sessions demo_state;
               disk := delete (chunk_file "u1" 1) (disk demo_state) |} in
  ∃ st',
    complete_chunked_upload "f1" demo_complete st
    = (Raise (HTTPException 500 (FailedToCompleteUpload
         (FileNotFoundError (chunk_file "u1" 1)))), st')
    ∧ disk st' !! ["static"; "uploads"; "temp"; "f1_a.pdf"] = Some (b "foo").
Proof.
  intros st.
  destruct demo_state_session as (session & Hs & Hn & Hsz & Hname & Hp & Hf & Hc).
  destruct (temp_destination_accepted session (disk st) Hname Hp Hf)
    as [Hacc Hpath]; [split_and!; vm_compute; reflexivity|].
  destruct (complete_leaves_partial_file "f1" demo_complete st session demo_data 1)
    as (st' & Hrun & Hfile & _).
  - exact Hs.
  - apply two_chunks_fully_received; [done|]. by rewrite Hc.
  - rewrite Hc. simpl. apply NoDup_cons. split; [|apply NoDup_singleton].
    rewrite list_elem_of_singleton. lia.
  - intros i p. rewrite Hc. rewrite !elem_of_cons.
    intros [[= -> ->]|[[= -> ->]|Hnil]]; [done|done|by apply elem_of_nil in Hnil].
  - rewrite Hn. lia.
  - intros i Hi. assert (i = 0) as -> by lia. vm_compute. reflexivity.
  - simpl. apply lookup_delete_eq.
  - exact Hacc.
  - exists st'. split; [exact Hrun|].
    rewrite <- Hpath, Hfile. reflexivity.
Defined.

(** ** Whole lifecycles *)

(** What a run of ingestions adds to a session and to the disk. *)
Lemma ingest_effect upload_id data order :
  ∀ st session,
    upload_sessions st !! upload_id = Some session →
    let st' := ingest_all upload_id data order st in
    ∃ added : ChunkDict,
      upload_sessions st'
      = <[upload_id := set_chunks (chunks session ++ added) session]>
          (upload_sessions st)
      ∧ (∀ i p, (i, p) ∈ added →
           p = chunk_file upload_id i
           ∧ 0 ≤ i < totalChunks session
           ∧ disk st' !! p = Some (data i))
      ∧ (∀ q, q ∉ values added → disk st' !! q = disk st !! q).
Proof.
  induction order as [|i order IH]; intros st session Hs; cbv zeta.
  - exists []. split_and!.
    + rewrite app_nil_r, set_chunks_chunks. simpl. by rewrite insert_id.
    + intros j p Hin. by apply elem_of_nil in Hin.
    + done.
  - rewrite ingest_all_cons. rewrite run_upload, Hs.
    case_decide as Hfresh.
    + destruct Hfresh as [Hi Hk].
      set (p := chunk_file upload_id i).
      set (st1 := {| upload_sessions :=
                       <[upload_id := record_chunk session i p]> (upload_sessions st);
                     disk := <[p := data i]> (disk st) |}).
      destruct (IH st1 (record_chunk session i p)) as (added & Hreg & Hadd & Hframe);
        [apply lookup_insert_eq|].
      exists ((i, p) :: added). split_and!.
      * rewrite Hreg. simpl. rewrite insert_insert_eq.
        rewrite dict_set_new by done. by rewrite <- app_assoc.
      * intros j q. rewrite elem_of_cons. intros [[= -> ->]|Hin].
        -- split; [done|]. split; [done|].
           destruct (decide (p ∈ values added)) as [Hp|Hp].
           ++ apply list_elem_of_fmap in Hp as ([j q] & Hq & Hin). simpl in Hq.
              destruct (Hadd _ _ Hin) as (Hqj & _ & Hd).
              assert (i = j) as <-
                by (apply (chunk_file_inj upload_id); rewrite <- Hqj; exact Hq).
              by rewrite Hq.
           ++ rewrite Hframe by done. simpl. apply lookup_insert_eq.
        -- by apply Hadd.
      * intros q Hq. simpl in Hq. apply not_elem_of_cons in Hq as [Hne Hq].
        rewrite Hframe by done. simpl. by rewrite lookup_insert_ne.
    + by apply IH.
Qed.

(** Cancelling undoes an upload in progress. When the id is new and no chunk
    file of that id is on the disk, creating the session, ingesting any
    chunks in any order and cancelling leaves the registry and the disk
    exactly as they were before the session was created. *)
Theorem cancel_undoes_ingestion
    upload_id t1 t2 init_request project_id folder_id data order st response st1 :
  upload_sessions st !! upload_id = None →
  (∀ i, disk st !! chunk_file upload_id i = None) →
  initialize_chunked_upload upload_id t1 t2 init_request project_id folder_id st
    = (Ok response, st1) →
  cancel_chunked_upload upload_id (ingest_all upload_id data order st1)
  = (Ok upload_id, st).
Proof.
  intros Hnew Hfree Hinit.
  destruct (initialize_ok_effect _ _ _ _ _ _ _ _ _ Hinit)
    as (Hdisk & Hothers & (session & Hs & _) & _).
  destruct (ingest_effect upload_id data order st1 session Hs)
    as (added & Hreg & Hadd & Hframe).
  erewrite cancel_found; [|rewrite Hreg; apply lookup_insert_eq].
  f_equal. destruct st as [reg d]. simpl in *. f_equal.
  - rewrite Hreg. rewrite delete_insert_eq. apply map_eq. intros other.
    destruct (decide (other = upload_id)) as [->|Hne].
    + by rewrite lookup_delete_eq.
    + rewrite lookup_delete_ne by done. by apply Hothers.
  - apply map_eq. intros q. rewrite lookup_remove_all. simpl.
    assert (Hsplit : values (chunks session ++ added) = values (chunks session) ++ values added)
      by (unfold values; by rewrite fmap_app).
    case_decide as Hq.
    + rewrite Hsplit, elem_of_app in Hq.
      assert (∃ i, q = chunk_file upload_id i) as [i ->].
      { destruct Hq as [Hq|Hq].
        - destruct (initialize_ok_effect _ _ _ _ _ _ _ _ _ Hinit)
            as (_ & _ & (session' & Hs' & Hfields) & _).
          rewrite Hs in Hs'. injection Hs' as <-.
          destruct Hfields as (_ & _ & _ & _ & _ & _ & _ & _ & Hnil & _).
          rewrite Hnil in Hq. by apply elem_of_nil in Hq.
        - apply list_elem_of_fmap in Hq as ([i p] & -> & Hin). exists i.
          by apply Hadd in Hin as [-> _]. }
      by rewrite Hfree.
    + rewrite Hsplit, elem_of_app in Hq.
      rewrite Hframe by (intros Hin; apply Hq; by right).
      by rewrite Hdisk.
Qed.

Lemma cancel_undoes_ingestion_witness :
  cancel_chunked_upload "u1" demo_state = (Ok "u1", empty_state).
Proof.
  exact (cancel_undoes_ingestion "u1" 10 11 demo_request None None demo_data [0; 1]
           empty_state
           {| ir_uploadId := "u1"; ir_chunkSize := 3; ir_totalChunks := 2;
              ir_expiresAt := 11 |}
           (run (initialize_chunked_upload "u1" 10 11 demo_request None None)
              empty_state)
           (lookup_empty _) (λ i, lookup_empty _) eq_refl).
Defined.

(** A whole upload leaves one new file and nothing else. When the id is new,
    no chunk file of that id is on the disk and the destination can be made
    (the file name and the project or folder id are plain names, no file
    stands at the directory or above it), creating the session, ingesting
    the chunks in any order that covers [[0, totalChunks)], with lengths
    that sum to [totalSize], and completing returns success; the
    registry is then as it was before the session was created, and the disk
    differs from the disk before in the assembled file only, which holds the
    chunks in index order. *)
Theorem upload_lifecycle
    upload_id t1 t2 init_request project_id folder_id data order file_id request
    st response st1 session :
  upload_sessions st !! upload_id = None →
  (∀ i, disk st !! chunk_file upload_id i = None) →
  initialize_chunked_upload upload_id t1 t2 init_request project_id folder_id st
    = (Ok response, st1) →
  upload_sessions st1 !! upload_id = Some session →
  (∀ i, i ∈ order ↔ 0 ≤ i < rq_totalChunks init_request) →
  total_length data (range (rq_totalChunks init_request)) = rq_totalSize init_request →
  cq_uploadId request = upload_id →
  destination_accepted file_id session (disk st) →
  complete_chunked_upload file_id request (ingest_all upload_id data order st1)
  = (Ok (complete_response file_id session (rq_totalSize init_request)),
     {| upload_sessions := upload_sessions st;
        disk := <[final_file_path_of file_id session :=
                    concat_chunks data (range (rq_totalChunks init_request))]>
                  (disk st) |}).
Proof.
  intros Hnew Hfree Hinit Hs Hcover Hsize <- Hacc.
  destruct (initialize_ok_effect _ _ _ _ _ _ _ _ _ Hinit)
    as (Hdisk & Hothers & (session' & Hs' & Hfields) & _).
  rewrite Hs in Hs'. injection Hs' as <-.
  destruct Hfields as (_ & _ & Hsz & _ & Hn & _ & _ & _ & Hnil & _).
  rewrite <- Hn in Hcover, Hsize |- *. rewrite <- Hsz in Hsize |- *.
  assert (Hst : chunks_stored (cq_uploadId request) session data (disk st1)).
  { split; rewrite Hnil; [apply NoDup_nil_2|].
    intros i p Hin. by apply elem_of_nil in Hin. }
  destruct (ingest_stored (cq_uploadId request) data order st1 session Hs Hst)
    as (s' & Hs2 & Hf' & Hst' & Hk').
  destruct (ingest_effect (cq_uploadId request) data order st1 session Hs)
    as (added & Hreg & Hadd & Hframe).
  assert (Hfull : fully_received s').
  { intros i. rewrite Hk'. rewrite Hf'. simpl. rewrite Hnil, Hcover. simpl.
    split; [intros [Hin|[? _]]; [by apply elem_of_nil in Hin|done]|].
    intros Hi. by right. }
  assert (Hacc' : destination_accepted file_id s'
                    (disk (ingest_all (cq_uploadId request) data order st1))).
  { rewrite Hf'.
    apply (destination_accepted_frame file_id session (cq_uploadId request) (disk st));
      [done|].
    intros q Hq. rewrite Hframe; [by rewrite Hdisk|].
    intros Hqa. apply list_elem_of_fmap in Hqa as ([i p] & -> & Hip).
    destruct (Hadd _ _ Hip) as (-> & _). by apply (Hq i). }
  pose proof (complete_stored file_id request _ s' data Hs2 Hfull Hst' Hacc') as Hrun.
  cbv zeta in Hrun. rewrite Hf' in Hrun. simpl in Hrun.
  change (final_file_path_of file_id (set_chunks (chunks s') session))
    with (final_file_path_of file_id session) in Hrun.
  change (complete_response file_id (set_chunks (chunks s') session))
    with (complete_response file_id session) in Hrun.
  rewrite decide_False in Hrun by (intros Hne; by apply Hne).
  rewrite Hsize in Hrun. rewrite Hrun. f_equal. f_equal.
  - rewrite Hreg. rewrite delete_insert_eq. apply map_eq. intros other.
    destruct (decide (other = cq_uploadId request)) as [->|Hne].
    + by rewrite lookup_delete_eq.
    + rewrite lookup_delete_ne by done. by apply Hothers.
  - apply map_eq. intros q.
    destruct (decide (q = final_file_path_of file_id session)) as [->|Hq].
    { by rewrite !lookup_insert_eq. }
    rewrite !lookup_insert_ne by done. rewrite lookup_remove_all.
    case_decide as Hin.
    + apply list_elem_of_fmap in Hin as (i & -> & _). by rewrite Hfree.
    + rewrite Hframe; [by rewrite Hdisk|].
      intros Hqa. apply Hin.
      apply list_elem_of_fmap in Hqa as ([i p] & -> & Hip).
      destruct (Hadd _ _ Hip) as (-> & Hi & _). simpl.
      apply list_elem_of_fmap. exists i. split; [done|]. by apply elem_of_range.
Qed.

Lemma upload_lifecycle_witness :
  ∃ session,
    complete_chunked_upload "f1" demo_complete demo_state
    = (Ok (complete_response "f1" session 6),
       {| upload_sessions := ∅;
          disk := {[ ["static"; "uploads"; "temp"; "f1_a.pdf"] := b "foobar" ]} |}).
Proof.
  set (st1 := run (initialize_chunked_upload "u1" 10 11 demo_request None None)
                empty_state).
  destruct (upload_sessions st1 !! "u1") as [session|] eqn:Hs;
    [|vm_compute in Hs; discriminate].
  exists session.
  pose proof (upload_lifecycle "u1" 10 11 demo_request None None demo_data [0; 1]
                "f1" demo_complete empty_state
                {| ir_uploadId := "u1"; ir_chunkSize := 3; ir_totalChunks := 2;
                   ir_expiresAt := 11 |} st1 session
                (lookup_empty _) (λ i, lookup_empty _) eq_refl Hs) as Hrun.
  assert (Hfields : fileName session = "a.pdf" ∧ projectId session = None
                    ∧ folderId session = None).
  { vm_compute in Hs. injection Hs as <-. split_and!; reflexivity. }
  destruct Hfields as (Hname & Hp & Hf).
  destruct (temp_destination_accepted session (disk empty_state) Hname Hp Hf)
    as [Hacc Hpath]; [split_and!; vm_compute; reflexivity|].
  rewrite Hpath in Hrun. apply Hrun.
  - intros i. simpl. rewrite !elem_of_cons. split.
    + intros [-> |[-> |Hnil]]; [lia|lia|by apply elem_of_nil in Hnil].
    + intros Hi. assert (i = 0 ∨ i = 1) as [-> | ->] by lia; auto.
  - reflexivity.
  - reflexivity.
  - exact Hacc.
Defined.

(** ** [get_upload_status] *)

Lemma status_found upload_id st session :
  upload_sessions st !! upload_id = Some session →
  totalChunks session ≠ 0 →
  get_upload_status upload_id st
  = (Ok {| us_uploadId := upload_id;
           us_fileName := fileName session;
           us_totalChunks := totalChunks session;
           us_receivedChunks := Z.of_nat (length (chunks session));
           us_missingChunks :=
             filter (λ i, i ∉ keys (chunks session)) (range (totalChunks session));
           us_status := status session;
           us_progress :=
             TrueDivMul (Z.of_nat (length (chunks session)))
                        (totalChunks session) 100 |}, st).
Proof.
  intros Hs Hn. unfold get_upload_status, bind, get_sessions. rewrite Hs.
  unfold percent. by rewrite decide_False.
Qed.

Lemma seqZ_Sorted_lt m n : Sorted Z.lt (seqZ m n).
Proof.
  unfold seqZ. generalize (Z.to_nat n) as k. intros k.
  generalize 0%nat as s. induction k as [|k IH]; intros s; simpl.
  - constructor.
  - constructor; [apply IH|].
    destruct k; simpl; constructor. lia.
Qed.

Lemma filter_StronglySorted {A} (R : relation A) (P : A → Prop)
    `{∀ x, Decision (P x)} (l : list A) :
  StronglySorted R l → StronglySorted R (filter P l).
Proof.
  induction 1 as [|x l Hl IH Hx]; [constructor|].
  rewrite filter_cons. case_decide; [|done].
  constructor; [done|].
  apply Forall_forall. intros y Hy. apply list_elem_of_filter in Hy as [_ Hy].
  by eapply Forall_forall in Hx.
Qed.

(** The received chunks and the missing ones make up [[0, totalChunks)]. *)
Lemma received_plus_missing session :
  chunks_in_range session →
  (length (chunks session)
   + length (filter (λ i, i ∉ keys (chunks session)) (range (totalChunks session)))
   = Z.to_nat (totalChunks session))%nat.
Proof.
  intros [Hr Hnd].
  rewrite <- (length_seqZ 0 (totalChunks session)).
  rewrite <- (filter_app_complement (λ i, i ∈ keys (chunks session))
                (seqZ 0 (totalChunks session))).
  rewrite length_app. f_equal.
  replace (length (chunks session)) with (length (keys (chunks session)))
    by (unfold keys; apply length_fmap).
  apply Permutation_length. apply NoDup_Permutation.
  - done.
  - apply NoDup_filter, NoDup_seqZ.
  - intros i. rewrite list_elem_of_filter, elem_of_seqZ. split.
    + intros Hi. split; [done|]. apply Hr in Hi. lia.
    + by intros [? _].
Qed.

Lemma fully_received_length session :
  chunks_in_range session →
  0 ≤ totalChunks session →
  fully_received session ↔ Z.of_nat (length (chunks session)) = totalChunks session.
Proof.
  intros Hin Hn. pose proof (received_plus_missing session Hin) as Hsum.
  destruct Hin as [Hr Hnd]. split.
  - intros Hfull.
    assert (Hnil : filter (λ i, i ∉ keys (chunks session))
                     (range (totalChunks session)) = []).
    { destruct (filter _ _) as [|x l] eqn:Hf; [done|]. exfalso.
      assert (Hx : x ∈ filter (λ i, i ∉ keys (chunks session))
                         (range (totalChunks session)))
        by (rewrite Hf; left).
      apply list_elem_of_filter in Hx as [Hx Hrange].
      apply Hx. apply Hfull. by apply elem_of_range. }
    rewrite Hnil in Hsum. simpl in Hsum. lia.
  - intros Hlen i. split; [apply Hr|]. intros Hi.
    destruct (decide (i ∈ keys (chunks session))) as [|Hni]; [done|].
    assert (Hmiss : i ∈ filter (λ i, i ∉ keys (chunks session))
                          (range (totalChunks session))).
    { apply list_elem_of_filter. split; [done|by apply elem_of_range]. }
    destruct (filter _ _) as [|x l]; [by apply elem_of_nil in Hmiss|].
    simpl in Hsum. lia.
Qed.

(** [get_upload_status] on a registered session changes nothing. It raises
    [ZeroDivisionError] when the session declares zero chunks; otherwise it
    returns the file name, the declared chunk count, the number of recorded
    chunks, the indices of [[0, totalChunks)] that are not recorded, in
    strictly ascending order, the session's status, and as progress the
    float that [receivedChunks / totalChunks * 100] evaluates to. *)
Theorem status_report upload_id st session :
  upload_sessions st !! upload_id = Some session →
  (totalChunks session = 0 →
     get_upload_status upload_id st = (Raise ZeroDivisionError, st))
  ∧ (totalChunks session ≠ 0 →
     ∃ report,
       get_upload_status upload_id st = (Ok report, st)
       ∧ us_uploadId report = upload_id
       ∧ us_fileName report = fileName session
       ∧ us_totalChunks report = totalChunks session
       ∧ us_receivedChunks report = Z.of_nat (length (chunks session))
       ∧ (∀ i, i ∈ us_missingChunks report ↔
            0 ≤ i < totalChunks session ∧ i ∉ keys (chunks session))
       ∧ Sorted Z.lt (us_missingChunks report)
       ∧ us_status report = status session
       ∧ us_progress report
         = TrueDivMul (us_receivedChunks report) (us_totalChunks report) 100).
Proof.
  intros Hs. split.
  - intros Hn. unfold get_upload_status, bind, get_sessions. rewrite Hs.
    unfold percent. by rewrite decide_True.
  - intros Hn. eexists. split; [by apply status_found|]. simpl.
    split_and!; try done.
    + intros i. rewrite list_elem_of_filter, elem_of_range. tauto.
    + apply StronglySorted_Sorted, filter_StronglySorted.
      apply Sorted_StronglySorted; [apply _|apply seqZ_Sorted_lt].
Qed.

Lemma status_report_witness :
  ∃ report,
    get_upload_status "u1" gate_state = (Ok report, gate_state)
    ∧ us_receivedChunks report = 2
    ∧ us_missingChunks report = [1].
Proof.
  destruct (upload_sessions gate_state !! "u1") as [session|] eqn:Hs;
    [|vm_compute in Hs; discriminate].
  destruct (proj2 (status_report "u1" gate_state session Hs))
    as (report & Hrun & _).
  - vm_compute in Hs. injection Hs as <-. simpl. lia.
  - exists report. split; [exact Hrun|].
    assert (Hreport : (get_upload_status "u1" gate_state).1 = Ok report)
      by (by rewrite Hrun).
    vm_compute in Hreport. injection Hreport as <-. split; reflexivity.
Defined.

(** On a session whose recorded indices lie in [[0, totalChunks)], each once,
    and which declares at least one chunk, the status and the completeness
    gate agree. The recorded count and the number of missing indices sum to
    [totalChunks]. The list of missing indices is empty exactly when every
    index is recorded; and when some index is not, [complete_chunked_upload]
    fails with a list of missing chunks that has the same members as the
    list the status reports. *)
Theorem status_agrees_with_complete upload_id file_id request st session :
  upload_sessions st !! upload_id = Some session →
  cq_uploadId request = upload_id →
  chunks_in_range session →
  0 < totalChunks session →
  ∃ report,
    get_upload_status upload_id st = (Ok report, st)
    ∧ us_receivedChunks report + Z.of_nat (length (us_missingChunks report))
      = totalChunks session
    ∧ (us_missingChunks report = [] ↔ fully_received session)
    ∧ (¬ fully_received session →
       ∃ missing,
         (complete_chunked_upload file_id request st).1
         = Raise (HTTPException 500 (FailedToCompleteUpload (HTTPException 400
             (MissingChunks missing))))
         ∧ missing ≡ₚ us_missingChunks report).
Proof.
  intros Hs <- Hin Hn.
  pose proof (received_plus_missing session Hin) as Hsum.
  pose proof (fully_received_length session Hin ltac:(lia)) as Hlen.
  eexists. split; [apply status_found; [done|lia]|]. simpl.
  split_and!.
  - lia.
  - rewrite Hlen. split.
    + intros Hnil. rewrite Hnil in Hsum. simpl in Hsum. lia.
    + intros Hall. destruct (filter _ _) as [|x l]; [done|].
      simpl in Hsum. lia.
  - intros Hnot. rewrite (complete_missing _ _ _ session) by done. simpl.
    eexists. split; [reflexivity|].
    apply NoDup_Permutation.
    + apply NoDup_elements.
    + apply NoDup_filter, NoDup_seqZ.
    + intros i. rewrite elem_of_elements, elem_of_difference.
      rewrite !elem_of_list_to_set, list_elem_of_filter. tauto.
Qed.

Lemma status_agrees_with_complete_witness :
  ∃ report missing,
    get_upload_status "u1" gate_state = (Ok report, gate_state)
    ∧ us_receivedChunks report + Z.of_nat (length (us_missingChunks report)) = 3
    ∧ (complete_chunked_upload "f1" demo_complete gate_state).1
      = Raise (HTTPException 500 (FailedToCompleteUpload (HTTPException 400
          (MissingChunks missing))))
    ∧ missing ≡ₚ us_missingChunks report.
Proof.
  destruct (upload_sessions gate_state !! "u1") as [session|] eqn:Hs;
    [|vm_compute in Hs; discriminate].
  assert (Hc : keys (chunks session) = [0; 2] ∧ totalChunks session = 3).
  { vm_compute in Hs. injection Hs as <-. split; reflexivity. }
  destruct Hc as [Hk Hn].
  destruct (status_agrees_with_complete "u1" "f1" demo_complete gate_state session
              Hs eq_refl)
    as (report & Hrun & Hsum & _ & Hmissing).
  - split; rewrite Hk.
    + intros i. rewrite Hn, !elem_of_cons.
      intros [-> |[-> |Hnil]]; [lia|lia|by apply elem_of_nil in Hnil].
    + apply NoDup_cons. split; [|apply NoDup_singleton].
      rewrite list_elem_of_singleton. lia.
  - lia.
  - destruct Hmissing as (missing & Hfail & Hperm).
    + intros Hfull. assert (H1 : 1 ∈ keys (chunks session)) by (apply Hfull; lia).
      rewrite Hk, !elem_of_cons in H1.
      destruct H1 as [|[|Hnil]]; [lia|lia|by apply elem_of_nil in Hnil].
    + exists report, missing. split_and!; [done|by rewrite Hsum|done|done].
Defined.

(** * Properties of the coordinate script *)

Section updown_facts.

Context {float : Type}.
Context (float_of_int : Z → option float).
Context (float_sub : float → float → float).

Local Abbreviation flip_y := (flip_item float_of_int float_sub).
Local Abbreviation convert := (convert_page float_of_int float_sub).
Local Abbreviation script := (updown float_of_int float_sub).
Implicit Types (d : list (string * json float)) (v item data : json float).

(** ** Dictionaries *)

Lemma obj_lookup_set_eq k v d : obj_lookup k (obj_set k v d) = Some v.
Proof.
  induction d as [|[k' v'] d IH]; simpl.
  - by rewrite decide_True.
  - case_decide; simpl; [by rewrite decide_True|by rewrite decide_False].
Qed.

Lemma obj_lookup_set_ne k k' v d :
  k' ≠ k → obj_lookup k' (obj_set k v d) = obj_lookup k' d.
Proof.
  intros Hne. induction d as [|[k1 v1] d IH]; simpl.
  - by rewrite decide_False.
  - case_decide as Hk; simpl.
    + subst k1. by rewrite !decide_False.
    + case_decide; [done|apply IH].
Qed.

Lemma obj_set_keys k v d :
  is_Some (obj_lookup k d) → fst <$> obj_set k v d = fst <$> d.
Proof.
  induction d as [|[k' v'] d IH]; simpl; intros [w Hw]; [done|].
  case_decide as Hk; simpl.
  - by subst.
  - f_equal. apply IH. eauto.
Qed.

Lemma obj_set_set k v w d : obj_set k v (obj_set k w d) = obj_set k v d.
Proof.
  induction d as [|[k' v'] d IH]; simpl.
  - by rewrite decide_True.
  - case_decide; simpl; [by rewrite decide_True|].
    rewrite decide_False by done. by rewrite IH.
Qed.

Lemma obj_set_same k v d : obj_lookup k d = Some v → obj_set k v d = d.
Proof.
  induction d as [|[k' v'] d IH]; simpl; [done|].
  case_decide as Hk.
  - intros [= ->]. by subst.
  - intros Hl. by rewrite IH.
Qed.

Lemma obj_get_Some k d v : obj_get k d = v → v ≠ JNull → obj_lookup k d = Some v.
Proof.
  unfold obj_get. destruct (obj_lookup k d); [by intros ->|].
  by intros <-.
Qed.

(** ** One item *)

(** An item that lacks [y] or [height], or holds [null] there, is left as it
    is. *)
Lemma flip_item_skips d :
  obj_get "y" d = JNull ∨ obj_get "height" d = JNull →
  flip_y (JDict d) = Done (JDict d).
Proof.
  unfold flip_item. intros [Hy|Hh].
  - by rewrite Hy.
  - rewrite Hh. by destruct (obj_get "y" d).
Qed.

(** A converted item is the item with, at most, a new value under [y]. *)
Lemma flip_item_same_but_y item item' :
  flip_y item = Done item' → same_but_y item item'.
Proof.
  destruct item as [| | | | | |d]; try discriminate.
  unfold flip_item.
  destruct (obj_get "y" d) as [| | | | | |] eqn:Hy;
    destruct (obj_get "height" d) as [| | | | | |] eqn:Hh;
    try (intros [= <-]; exists d, d; by split_and!);
    (destruct (py_sub _ _ (JInt PAGE_HEIGHT) _) as [r|e]; [|discriminate]);
    (destruct (py_sub _ _ r _) as [w|e]; [|discriminate]);
    intros [= <-]; eexists d, _; (split_and!; [done|done| |]);
    try (apply obj_set_keys; erewrite obj_get_Some; [eauto|exact Hy|done]);
    intros k Hk; by apply obj_lookup_set_ne.
Qed.

(** On an item with integer [y] and [height], converting twice gives the
    item back. *)
Lemma flip_item_involutive item item' :
  int_item item → flip_y item = Done item' → int_item item' ∧ flip_y item' = Done item.
Proof.
  destruct item as [| | | | | |d]; try discriminate.
  unfold int_item, flip_item.
  destruct (obj_get "y" d) as [| |y| | | |] eqn:Hy;
    try (intros _ [= <-]; by rewrite Hy).
  all: destruct (obj_get "height" d) as [| |h| | | |] eqn:Hh;
    try done; try (intros _ [= <-]; by rewrite Hy, Hh).
  intros _. simpl. intros [= <-].
  assert (Hly : obj_lookup "y" d = Some (JInt y)) by (by apply obj_get_Some).
  assert (Hy' : obj_get "y" (obj_set "y" (JInt (PAGE_HEIGHT - y - h)) d)
                = JInt (PAGE_HEIGHT - y - h))
    by (unfold obj_get; by rewrite obj_lookup_set_eq).
  assert (Hh' : obj_get "height" (obj_set "y" (JInt (PAGE_HEIGHT - y - h)) d)
                = JInt h)
    by (unfold obj_get; rewrite obj_lookup_set_ne by done; exact Hh).
  rewrite Hy', Hh'. split; [done|]. simpl.
  rewrite obj_set_set.
  replace (PAGE_HEIGHT - (PAGE_HEIGHT - y - h) - h) with y by lia.
  by rewrite obj_set_same.
Qed.

(** ** Loops *)

Lemma each_Forall2 (body : json float → script_result (json float))
    (R : json float → json float → Prop) l l' :
  (∀ x x', body x = Done x' → R x x') →
  each body l = Done l' → Forall2 R l l'.
Proof.
  intros HR. revert l'. induction l as [|x l IH]; intros l'; simpl.
  - intros [= <-]. constructor.
  - destruct (body x) as [x'|e] eqn:Hx; [|discriminate].
    destruct (each body l) as [l''|e]; [|discriminate].
    intros [= <-]. constructor; [by apply HR|by apply IH].
Qed.

Lemma each_involutive (body : json float → script_result (json float))
    (P : json float → Prop) l l' :
  (∀ x x', P x → body x = Done x' → P x' ∧ body x' = Done x) →
  Forall P l → each body l = Done l' → Forall P l' ∧ each body l' = Done l.
Proof.
  intros Hinv. revert l'. induction l as [|x l IH]; intros l' HP; simpl.
  - intros [= <-]. by split.
  - apply Forall_cons in HP as [Hx HP].
    destruct (body x) as [x'|e] eqn:Hbx; [|discriminate].
    destruct (each body l) as [l''|e] eqn:Hl; [|discriminate].
    intros [= <-]. destruct (Hinv _ _ Hx Hbx) as [Hx' Hbx'].
    destruct (IH _ HP eq_refl) as [HP' Hl']. split.
    + by constructor.
    + simpl. by rewrite Hbx', Hl'.
Qed.

Lemma each_fixed (body : json float → script_result (json float))
    (P : json float → Prop) l l' :
  (∀ x x', P x → body x = Done x' → x' = x) →
  Forall P l → each body l = Done l' → l' = l.
Proof.
  intros Hfix. revert l'. induction l as [|x l IH]; intros l' HP; simpl.
  - by intros [= <-].
  - apply Forall_cons in HP as [Hx HP].
    destruct (body x) as [x'|e] eqn:Hbx; [|discriminate].
    destruct (each body l) as [l''|e] eqn:Hl; [|discriminate].
    intros [= <-]. f_equal; [by eapply Hfix|by apply IH].
Qed.

Lemma each_Done_all (body : json float → script_result (json float)) l l' :
  each body l = Done l' → Forall (λ x, ∃ x', body x = Done x') l.
Proof.
  revert l'. induction l as [|x l IH]; intros l'; simpl; [constructor|].
  destruct (body x) as [x'|e] eqn:Hx; [|discriminate].
  destruct (each body l) as [l''|e]; [|discriminate].
  intros _. constructor; [eauto|by eapply IH].
Qed.

(** A loop whose body takes dictionaries runs over a list, or over nothing:
    a string or a dictionary in the place of the list passes only when it is
    empty. *)
Lemma for_in_cases (body : json float → script_result (json float)) v v' :
  (∀ s, ∃ e, body (JStr s) = Failed e) →
  for_in v body = Done v' →
  (∃ l l', v = JList l ∧ v' = JList l' ∧ each body l = Done l')
  ∨ (v' = v ∧ elements_of v = []).
Proof.
  intros Hstr. destruct v as [| | | |s|l|d]; simpl; try discriminate.
  - destruct s as [|c s]; simpl; [intros [= <-]; by right|].
    destruct (Hstr (String c EmptyString)) as [e ->]. discriminate.
  - destruct (each body l) as [l'|e] eqn:Hl; [|discriminate].
    intros [= <-]. left. by exists l, l'.
  - destruct d as [|[k w] d]; simpl; [intros [= <-]; by right|].
    destruct (Hstr k) as [e ->]. discriminate.
Qed.

Lemma flip_item_str s : ∃ e, flip_y (JStr s) = Failed e.
Proof. by exists AttributeError. Qed.

Lemma convert_page_str s : ∃ e, convert (JStr s) = Failed e.
Proof. by exists AttributeError. Qed.

(** ** One page *)

Lemma convert_page_same_but_items p p' :
  convert p = Done p' → same_but_items p p'.
Proof.
  destruct p as [| | | | | |d]; try discriminate.
  unfold convert_page.
  destruct (obj_lookup "textItems" d) as [items|] eqn:Hitems.
  2:{ intros [= <-]. exists d, d. split_and!; try done.
      simpl. rewrite Hitems. constructor. }
  destruct (for_in items _) as [items'|e] eqn:Hloop; [|discriminate].
  intros [= <-]. eexists d, _. split_and!; [done|done| | |].
  - apply obj_set_keys. eauto.
  - intros k Hk. by apply obj_lookup_set_ne.
  - simpl. rewrite Hitems, obj_lookup_set_eq.
    destruct (for_in_cases _ _ _ flip_item_str Hloop)
      as [(l & l' & -> & -> & Hl)|[-> Hnil]].
    + simpl. eapply each_Forall2; [|exact Hl]. apply flip_item_same_but_y.
    + rewrite Hnil. constructor.
Qed.

Lemma convert_page_involutive p p' :
  Forall int_item (page_items p) → convert p = Done p' →
  Forall int_item (page_items p') ∧ convert p' = Done p.
Proof.
  destruct p as [| | | | | |d]; try discriminate.
  unfold convert_page at 1. simpl.
  destruct (obj_lookup "textItems" d) as [items|] eqn:Hitems.
  2:{ intros _ [= <-]. simpl. rewrite Hitems. by split. }
  destruct (for_in items _) as [items'|e] eqn:Hloop; [|discriminate].
  intros Hint [= <-]. simpl. rewrite obj_lookup_set_eq.
  destruct (for_in_cases _ _ _ flip_item_str Hloop)
    as [(l & l' & -> & -> & Hl)|[-> Hnil]].
  - destruct (each_involutive _ _ _ _ flip_item_involutive Hint Hl) as [Hint' Hl'].
    split; [done|]. simpl. rewrite Hl'.
    rewrite obj_set_set. by rewrite obj_set_same.
  - split; [by rewrite Hnil|]. rewrite Hloop.
    rewrite obj_set_set. by rewrite obj_set_same.
Qed.

Lemma flip_item_fixed item item' :
  no_coordinates item → flip_y item = Done item' → item' = item.
Proof.
  intros (d & -> & Hskip). rewrite flip_item_skips by done. by intros [= <-].
Qed.

Lemma convert_page_fixed p p' :
  Forall no_coordinates (page_items p) → convert p = Done p' → p' = p.
Proof.
  destruct p as [| | | | | |d]; try discriminate.
  unfold convert_page. simpl.
  destruct (obj_lookup "textItems" d) as [items|] eqn:Hitems;
    [|by intros _ [= <-]].
  destruct (for_in items _) as [items'|e] eqn:Hloop; [|discriminate].
  intros Hskip [= <-]. f_equal.
  destruct (for_in_cases _ _ _ flip_item_str Hloop)
    as [(l & l' & -> & -> & Hl)|[-> Hnil]].
  - rewrite (each_fixed _ _ _ _ flip_item_fixed Hskip Hl). by apply obj_set_same.
  - by apply obj_set_same.
Qed.

Lemma convert_page_Done_items p p' :
  convert p = Done p' →
  Forall (λ item, ∃ item', flip_y item = Done item') (page_items p).
Proof.
  destruct p as [| | | | | |d]; try discriminate.
  unfold convert_page. simpl.
  destruct (obj_lookup "textItems" d) as [items|] eqn:Hitems; [|constructor].
  destruct (for_in items _) as [items'|e] eqn:Hloop; [|discriminate].
  intros _.
  destruct (for_in_cases _ _ _ flip_item_str Hloop)
    as [(l & l' & -> & -> & Hl)|[-> Hnil]].
  - simpl. by eapply each_Done_all.
  - rewrite Hnil. constructor.
Qed.

(** ** The document *)

Lemma all_items_pages data : all_items data = concat (page_items <$> pages_of data).
Proof.
  destruct data as [| | | | | |d]; try done. simpl.
  by destruct (obj_lookup "pages" d).
Qed.

Lemma Forall_concat_pages (P : json float → Prop) (pages : list (json float)) :
  Forall P (concat (page_items <$> pages))
  ↔ Forall (λ p, Forall P (page_items p)) pages.
Proof.
  induction pages as [|p pages IH]; simpl.
  - split; constructor.
  - rewrite Forall_app, Forall_cons, IH. done.
Qed.

Lemma Forall2_concat_pages (R : json float → json float → Prop)
    (pages pages' : list (json float)) :
  Forall2 (λ p p', Forall2 R (page_items p) (page_items p')) pages pages' →
  Forall2 R (concat (page_items <$> pages)) (concat (page_items <$> pages')).
Proof.
  induction 1 as [|p p' pages pages' Hp _ IH]; simpl; [constructor|].
  by apply Forall2_app.
Qed.

(** The script changes nothing but [y] values. A document that passes is a
    dictionary; the result has the same keys in the same order and the same
    values except under [pages]; the pages pair up, each with the same keys
    and the same values except under [textItems]; and the text items pair
    up, each with the same keys and the same values except under [y]. *)
Theorem updown_changes_y_only data data' :
  script data = Done data' →
  ∃ d d',
    data = JDict d ∧ data' = JDict d'
    ∧ fst <$> d' = fst <$> d
    ∧ (∀ k, k ≠ "pages" → obj_lookup k d' = obj_lookup k d)
    ∧ Forall2 same_but_items (pages_of data) (pages_of data')
    ∧ Forall2 same_but_y (all_items data) (all_items data').
Proof.
  destruct data as [| | | | | |d]; try discriminate.
  intros Hrun.
  assert (Hpages : ∃ d', data' = JDict d'
            ∧ fst <$> d' = fst <$> d
            ∧ (∀ k, k ≠ "pages" → obj_lookup k d' = obj_lookup k d)
            ∧ Forall2 same_but_items (pages_of (JDict d)) (pages_of data')).
  { unfold updown in Hrun. simpl.
    destruct (obj_lookup "pages" d) as [pages|] eqn:Hp.
    2:{ injection Hrun as <-. exists d. split_and!; try done.
        simpl. rewrite Hp. constructor. }
    destruct (for_in pages _) as [pages'|e] eqn:Hloop; [|discriminate].
    injection Hrun as <-. eexists. split_and!; [done| | |].
    - apply obj_set_keys. eauto.
    - intros k Hk. by apply obj_lookup_set_ne.
    - simpl. rewrite obj_lookup_set_eq.
      destruct (for_in_cases _ _ _ convert_page_str Hloop)
        as [(l & l' & -> & -> & Hl)|[-> Hnil]].
      + simpl. eapply each_Forall2; [|exact Hl]. apply convert_page_same_but_items.
      + rewrite Hnil. constructor. }
  destruct Hpages as (d' & -> & Hkeys & Hothers & Hpages).
  exists d, d'. split_and!; try done.
  rewrite !all_items_pages. apply Forall2_concat_pages.
  eapply Forall2_impl; [exact Hpages|].
  by intros p p' (? & ? & _ & _ & _ & _ & Hitems).
Qed.

(** On integer coordinates the script is its own inverse: when every text
    item that has a [y] and a [height] holds integers there, running the
    script on its own output gives the document back. *)
Theorem updown_involutive data data' :
  Forall int_item (all_items data) →
  script data = Done data' →
  Forall int_item (all_items data') ∧ script data' = Done data.
Proof.
  destruct data as [| | | | | |d]; try discriminate.
  rewrite !all_items_pages. rewrite Forall_concat_pages.
  unfold updown at 1. simpl.
  destruct (obj_lookup "pages" d) as [pages|] eqn:Hp.
  2:{ intros _ [= <-]. simpl. rewrite Hp. by split. }
  destruct (for_in pages _) as [pages'|e] eqn:Hloop; [|discriminate].
  intros Hint [= <-]. rewrite Forall_concat_pages. simpl.
  rewrite obj_lookup_set_eq.
  destruct (for_in_cases _ _ _ convert_page_str Hloop)
    as [(l & l' & -> & -> & Hl)|[-> Hnil]].
  - destruct (each_involutive _ _ _ _ convert_page_involutive Hint Hl)
      as [Hint' Hl'].
    split; [done|]. simpl. rewrite Hl'.
    rewrite obj_set_set. by rewrite obj_set_same.
  - split; [by rewrite Hnil|]. rewrite Hloop.
    rewrite obj_set_set. by rewrite obj_set_same.
Qed.

(** A document in which no text item has both a [y] and a [height] comes
    out as it went in; so does a document without [pages]. *)
Theorem updown_without_coordinates data data' :
  Forall no_coordinates (all_items data) →
  script data = Done data' →
  data' = data.
Proof.
  destruct data as [| | | | | |d]; try discriminate.
  rewrite all_items_pages, Forall_concat_pages.
  unfold updown. simpl.
  destruct (obj_lookup "pages" d) as [pages|] eqn:Hp; [|by intros _ [= <-]].
  destruct (for_in pages _) as [pages'|e] eqn:Hloop; [|discriminate].
  intros Hskip [= <-]. f_equal.
  destruct (for_in_cases _ _ _ convert_page_str Hloop)
    as [(l & l' & -> & -> & Hl)|[-> Hnil]].
  - rewrite (each_fixed _ _ _ _ convert_page_fixed Hskip Hl). by apply obj_set_same.
  - by apply obj_set_same.
Qed.

(** The script passes only when every text item converts: one item that
    raises, anywhere in the document, ends the script with an exception, and
    nothing is dumped. An item that is not a dictionary raises
    [AttributeError]; a [y] that holds a string, next to a [height], raises
    [TypeError]. *)
Theorem updown_all_or_nothing data :
  (∀ data', script data = Done data' →
     Forall (λ item, ∃ item', flip_y item = Done item') (all_items data))
  ∧ (∀ item e, item ∈ all_items data → flip_y item = Failed e →
       ∃ e', script data = Failed e')
  ∧ (∀ item, (∀ d, item ≠ JDict d) → flip_y item = Failed AttributeError)
  ∧ (∀ d s, obj_get "y" d = JStr s → obj_get "height" d ≠ JNull →
       flip_y (JDict d) = Failed TypeError).
Proof.
  assert (Hall : ∀ data', script data = Done data' →
            Forall (λ item, ∃ item', flip_y item = Done item') (all_items data)).
  { intros data'. destruct data as [| | | | | |d]; try discriminate.
    rewrite all_items_pages, Forall_concat_pages.
    unfold updown. simpl.
    destruct (obj_lookup "pages" d) as [pages|] eqn:Hp; [|constructor].
    destruct (for_in pages _) as [pages'|e] eqn:Hloop; [|discriminate].
    intros _.
    destruct (for_in_cases _ _ _ convert_page_str Hloop)
      as [(l & l' & -> & -> & Hl)|[-> Hnil]].
    - simpl. eapply Forall_impl; [by eapply each_Done_all|].
      intros p [p' Hp']. by eapply convert_page_Done_items.
    - rewrite Hnil. constructor. }
  split_and!.
  - done.
  - intros item e Hin Hfail.
    destruct (script data) as [data'|e'] eqn:Hrun; [|by exists e'].
    specialize (Hall _ eq_refl). rewrite Forall_forall in Hall.
    destruct (Hall _ Hin) as [item' Hok]. rewrite Hok in Hfail. discriminate.
  - intros item Hnd. destruct item as [| | | | | |d]; try done.
    by destruct (Hnd d).
  - intros d s Hy Hh. unfold flip_item. rewrite Hy.
    by destruct (obj_get "height" d).
Qed.

End updown_facts.

(** ** The script on sample documents *)

Lemma updown_changes_y_only_witness :
  updown no_float_of_int no_float_sub sample_document = Done sample_flipped
  ∧ Forall2 same_but_y (all_items sample_document) (all_items sample_flipped).
Proof.
  assert (Hrun : updown no_float_of_int no_float_sub sample_document
                 = Done sample_flipped) by reflexivity.
  split; [exact Hrun|].
  destruct (updown_changes_y_only _ _ _ _ Hrun) as (d & d' & _ & _ & _ & _ & _ & Hitems).
  exact Hitems.
Defined.

Lemma updown_involutive_witness :
  updown no_float_of_int no_float_sub sample_flipped = Done sample_document.
Proof.
  refine (proj2 (updown_involutive no_float_of_int no_float_sub
                   sample_document sample_flipped _ _)).
  - repeat constructor.
  - reflexivity.
Defined.

Lemma updown_without_coordinates_witness :
  Forall no_coordinates (all_items sample_plain)
  ∧ ∃ data', updown no_float_of_int no_float_sub sample_plain = Done data'
             ∧ data' = sample_plain.
Proof.
  assert (Hplain : Forall no_coordinates (all_items sample_plain)).
  { constructor; [|constructor]. eexists. split; [reflexivity|]. by right. }
  split; [exact Hplain|].
  eexists. split; [reflexivity|].
  by apply (updown_without_coordinates no_float_of_int no_float_sub sample_plain).
Defined.

Lemma updown_all_or_nothing_witness :
  ∃ e, updown no_float_of_int no_float_sub sample_broken = Failed e.
Proof.
  destruct (updown_all_or_nothing no_float_of_int no_float_sub sample_broken)
    as (_ & Hfail & _ & Hstr).
  apply (Hfail (JDict [("y", JStr "100"); ("height", JInt 12)]) TypeError).
  - simpl. right. left.
  - by apply (Hstr _ "100").
Defined.
